(** * Lunar-to-solar synchronisation: a shallow embedding of [src/main.ts]

    The development follows the source file function by function:
    [parseLunar], [parseLeapStrategy], [yearHasLeapMonth],
    [resolveLunarMonth], [toSolar], [findNextSolar], [buildRangeOutputs],
    [escapeLiteralForMoment], [wrapLiteral], [processFile] and
    [writeFrontmatter].

    JavaScript strings are sequences of UTF-16 code units, plain objects are
    finite maps of own properties in front of [Object.prototype], and the
    collaborators of the plugin (the lunar calendar, the clock and the date
    formatter) are the fields of the class [Host]. *)

From Stdlib Require Import ZArith NArith List String Ascii Bool Lia.
From stdpp Require Import base decidable option list gmap fin_maps.
Import ListNotations.

Local Open Scope Z_scope.

(** ** JavaScript strings *)

(** A string is the list of its UTF-16 code units. *)
Abbreviation jsstring := (list N) (only parsing).

(** The code units of an ASCII literal. *)
Definition js (s : string) : jsstring :=
  List.map N_of_ascii (list_ascii_of_string s).

(** [WhiteSpace] and [LineTerminator] of ECMAScript: what [\s] matches in a
    regular expression and what [String.prototype.trim] strips. *)
Definition isWhiteSpace (c : N) : bool :=
  ((9 <=? c) && (c <=? 13))%N        (* TAB, LF, VT, FF, CR *)
  || (c =? 32)%N                     (* SPACE *)
  || (c =? 160)%N                    (* NO-BREAK SPACE *)
  || (c =? 5760)%N                   (* U+1680 *)
  || ((8192 <=? c) && (c <=? 8202))%N (* U+2000 .. U+200A *)
  || (c =? 8232)%N || (c =? 8233)%N  (* U+2028, U+2029 *)
  || (c =? 8239)%N                   (* U+202F *)
  || (c =? 8287)%N                   (* U+205F *)
  || (c =? 12288)%N                  (* U+3000 *)
  || (c =? 65279)%N.                 (* U+FEFF *)

(** [.] of a regular expression without the [s] flag: anything but a line
    terminator. *)
Definition isLineTerminator (c : N) : bool :=
  (c =? 10)%N || (c =? 13)%N || (c =? 8232)%N || (c =? 8233)%N.

Fixpoint trimStart (s : jsstring) : jsstring :=
  match s with
  | c :: rest => if isWhiteSpace c then trimStart rest else s
  | [] => []
  end.

Definition trimEnd (s : jsstring) : jsstring := rev (trimStart (rev s)).

(** [String.prototype.trim]. *)
Definition trim (s : jsstring) : jsstring := trimEnd (trimStart s).

(** ** JavaScript values and plain objects *)

(** The values a metadata field can hold.  A number carries the bit pattern
    of its double; the code below only ever asks whether a value is a
    string. *)
#[local] Set Warnings "-register-all".
Inductive JsValue : Type :=
| VUndefined
| VNull
| VBoolean (b : bool)
| VNumber (ieee754 : N)
| VString (s : jsstring)
| VArray (items : list JsValue)
| VObject (props : list (jsstring * JsValue))
| VFunction (name : jsstring).

Module JsObject.

(** The property names every plain object inherits from
    [Object.prototype]; each is bound to a function, except [__proto__],
    an accessor that yields the prototype object.  All are truthy. *)
Definition prototype_keys : list jsstring :=
  [ js "constructor"; js "__defineGetter__"; js "__defineSetter__";
    js "hasOwnProperty"; js "__lookupGetter__"; js "__lookupSetter__";
    js "isPrototypeOf"; js "propertyIsEnumerable"; js "toString";
    js "valueOf"; js "__proto__"; js "toLocaleString" ].

Definition proto : jsstring := js "__proto__".

(** The outcome of reading [o[k]]. *)
Inductive Read (V : Type) : Type :=
| Own (v : V)
| Inherited (name : jsstring)
| Missing.
Arguments Own {V} v.
Arguments Inherited {V} name.
Arguments Missing {V}.

(** [o[k]]: the own property if there is one, else the member of
    [Object.prototype], else [undefined]. *)
Definition get {V : Type} (o : gmap (list N) V) (k : jsstring) : Read V :=
  match o !! k with
  | Some v => Own v
  | None =>
      if bool_decide (k ∈ prototype_keys) then Inherited k else Missing
  end.

(** [o[k] = v] for a primitive [v].  The assignment creates or updates an
    own property, except for the key [__proto__] on an object that has no
    own property of that name: it then reaches the inherited setter, which
    ignores a value that is neither an object nor [null]. *)
Definition set {V : Type} (k : jsstring) (v : V) (o : gmap (list N) V)
  : gmap (list N) V :=
  if bool_decide (k = proto) && bool_decide (o !! k = None)
  then o
  else <[k := v]> o.

End JsObject.

(** ** Data model *)

Inductive LeapStrategy : Type := strict | forward | backward.

Record LunarDate : Type := mkLunarDate {
  year : Z;
  month : Z;
  day : Z;
  isLeap : bool
}.

(** What a variable of static type [LeapStrategy] holds at run time: one of
    the three variants, or a member of [Object.prototype] that
    [parseLeapStrategy] read out of the lookup table. *)
Inductive StrategyValue : Type :=
| Strategy (s : LeapStrategy)
| ProtoMember (name : jsstring).

(** ** [LEAP_STRATEGY_LOOKUP] and [parseLeapStrategy] *)

Definition label_strict : jsstring := [20005; 26684; 38384; 26376]%N.
Definition label_forward : jsstring := [21521; 21069; 25240; 31639]%N.
Definition label_backward : jsstring := [21521; 21518; 25240; 31639]%N.

Definition LEAP_STRATEGY_ENTRIES : list (jsstring * LeapStrategy) :=
  [ (label_strict, strict);
    (label_forward, forward);
    (label_backward, backward);
    (js "strict", strict);
    (js "forward", forward);
    (js "backward", backward) ].

Definition LEAP_STRATEGY_LOOKUP : gmap (list N) LeapStrategy :=
  list_to_map LEAP_STRATEGY_ENTRIES.

Definition parseLeapStrategy (value : JsValue) (fallback : LeapStrategy)
  : StrategyValue :=
  match value with
  | VString s =>
      let trimmed := trim s in
      match JsObject.get LEAP_STRATEGY_LOOKUP trimmed with
      | JsObject.Own mapped => Strategy mapped
      | JsObject.Inherited name => ProtoMember name
      | JsObject.Missing => Strategy fallback
      end
  | _ => Strategy fallback
  end.

(** ** [LUNAR_INPUT_RE] and [parseLunar] *)

Definition isDigit (c : N) : bool := ((48 <=? c) && (c <=? 57))%N.

Definition digitValue (c : N) : Z := Z.of_N c - 48.

(** [Number(text)] for a text of decimal digits. *)
Definition Number (text : jsstring) : Z :=
  fold_left (fun acc c => 10 * acc + digitValue c) text 0.

Definition hyphen : N := 45%N.
Definition tag_lunar : jsstring := [20892; 21382]%N.
Definition leap_marker : N := 38384%N.

Fixpoint stripPrefix (lit s : jsstring) : option jsstring :=
  match lit, s with
  | [], _ => Some s
  | a :: lit', b :: s' => if (a =? b)%N then stripPrefix lit' s' else None
  | _ :: _, [] => None
  end.

(** [\d{n}]: exactly [n] digits, and the text behind them. *)
Fixpoint digits (n : nat) (s : jsstring) : option (jsstring * jsstring) :=
  match n with
  | O => Some ([], s)
  | S n' =>
      match s with
      | c :: rest =>
          if isDigit c
          then '(ds, rest') ← digits n' rest; Some (c :: ds, rest')
          else None
      | [] => None
      end
  end.

Definition literal (c : N) (s : jsstring) : option jsstring :=
  match s with
  | c' :: rest => if (c =? c')%N then Some rest else None
  | [] => None
  end.

(** The capture groups of a match: year, leap marker, month, day. *)
Record LunarMatch : Type := mkLunarMatch {
  yearStr : jsstring;
  leap : bool;
  monthStr : jsstring;
  dayStr : jsstring
}.

(** [raw.match(LUNAR_INPUT_RE)], the expression read left to right.  No
    piece ever has to give back what it took: a digit is neither white
    space nor one of the two literal tokens, so the greedy choice of each
    optional piece is the only one that can lead to a match. *)
Definition LUNAR_INPUT_RE (raw : jsstring) : option LunarMatch :=
  let s0 := default raw (stripPrefix tag_lunar raw) in   (* ^(?:tag)?   *)
  let s1 := trimStart s0 in                              (* \s*         *)
  '(y, s2) ← digits 4 s1;                                (* (\d{4})     *)
  s3 ← literal hyphen s2;                                (* -           *)
  let lp := literal leap_marker s3 in                    (* (marker)?   *)
  let s4 := default s3 lp in
  '(m, s5) ← digits 2 s4;                                (* (\d{2})     *)
  s6 ← literal hyphen s5;                                (* -           *)
  '(d, s7) ← digits 2 s6;                                (* (\d{2})     *)
  if forallb isWhiteSpace s7                             (* \s*$        *)
  then Some (mkLunarMatch y (bool_decide (is_Some lp)) m d)
  else None.

(** The three [Number.isInteger] tests of the source cannot fail on digit
    strings, so the only [null] is the failed match. *)
Definition parseLunar (raw : jsstring) : option LunarDate :=
  match LUNAR_INPUT_RE raw with
  | None => None
  | Some m =>
      Some {| year := Number (yearStr m);
              month := Number (monthStr m);
              day := Number (dayStr m);
              isLeap := leap m |}
  end.

(** ** [wrapLiteral] and [escapeLiteralForMoment] *)

Definition lbracket : N := 91%N.
Definition backslash : N := 92%N.
Definition rbracket : N := 93%N.

(** [text.replace(/]/g, "\\]")]. *)
Fixpoint escapeBrackets (text : jsstring) : jsstring :=
  match text with
  | [] => []
  | c :: rest =>
      if (c =? rbracket)%N
      then backslash :: rbracket :: escapeBrackets rest
      else c :: escapeBrackets rest
  end.

Definition wrapLiteral (text : jsstring) : jsstring :=
  match text with
  | [] => []
  | _ => lbracket :: escapeBrackets text ++ [rbracket]
  end.

(** The alternatives of [tokenRe].  Nothing follows the alternation, so an
    alternative with an optional tail takes the tail whenever it is there. *)
Inductive Alternative : Type :=
| Bracketed                         (* \[.*?]  *)
| Lit (s : string)                  (* a fixed token *)
| LitOpt (s : string) (tail : string). (* a token and an optional tail *)

(** The alternation of [tokenRe], in the order of the source. *)
Definition tokenRe : list Alternative :=
  [ Bracketed;
    Lit "YYYY"; Lit "YY"; LitOpt "Q" "O";
    Lit "MMMM"; Lit "MMM"; Lit "MM"; Lit "M";
    Lit "DDDD"; Lit "DDD"; Lit "DD"; Lit "D"; Lit "Do";
    Lit "dddd"; Lit "ddd"; Lit "dd"; Lit "d";
    Lit "WWWW"; Lit "WWW"; Lit "WW"; Lit "W";
    LitOpt "H" "H"; LitOpt "h" "h"; LitOpt "m" "m"; LitOpt "s" "s";
    Lit "A"; Lit "a"; Lit "X"; Lit "x";
    LitOpt "Z" "Z";                  (* Z{1,2} *)
    Lit "SSS"; Lit "SS"; Lit "S" ].

(** [.*?]] behind an opening bracket: the number of code units up to and
    including the first closing bracket, if no line terminator comes
    before it. *)
Fixpoint lazyToBracket (s : jsstring) : option nat :=
  match s with
  | [] => None
  | c :: rest =>
      if (c =? rbracket)%N then Some 1%nat
      else if isLineTerminator c then None
      else S <$> lazyToBracket rest
  end.

(** The length of the match of one alternative at the head of [s]. *)
Definition matchAlternative (a : Alternative) (s : jsstring) : option nat :=
  match a with
  | Bracketed =>
      match s with
      | c :: rest => if (c =? lbracket)%N then S <$> lazyToBracket rest else None
      | [] => None
      end
  | Lit t =>
      match stripPrefix (js t) s with
      | Some _ => Some (length (js t))
      | None => None
      end
  | LitOpt t tail =>
      match stripPrefix (js t) s with
      | Some rest =>
          match stripPrefix (js tail) rest with
          | Some _ => Some (length (js t) + length (js tail))%nat
          | None => Some (length (js t))
          end
      | None => None
      end
  end.

(** The first alternative that matches wins. *)
Fixpoint matchFirst (alts : list Alternative) (s : jsstring) : option nat :=
  match alts with
  | [] => None
  | a :: alts' =>
      match matchAlternative a s with
      | Some n => Some n
      | None => matchFirst alts' s
      end
  end.

(** The leftmost match in [s], which starts at index [i] of the pattern:
    its index and its length. *)
Fixpoint tokenRe_search (s : jsstring) (i : nat) : option (nat * nat) :=
  match matchFirst tokenRe s with
  | Some n => Some (i, n)
  | None =>
      match s with
      | [] => None
      | _ :: rest => tokenRe_search rest (S i)
      end
  end.

(** [tokenRe.exec(pattern)] with [tokenRe.lastIndex = lastIndex]. *)
Definition tokenRe_exec (pattern : jsstring) (lastIndex : nat)
  : option (nat * nat) :=
  tokenRe_search (drop lastIndex pattern) lastIndex.

(** [pattern.slice(from, to)] for [from <= to]. *)
Definition slice (pattern : jsstring) (from to : nat) : jsstring :=
  take (to - from) (drop from pattern).

(** The [while] loop: the parts pushed so far and [lastIndex].  Every match
    is at least one code unit long, so the loop runs at most
    [length pattern] times before [exec] returns [null]. *)
Fixpoint escapeLoop (fuel : nat) (pattern : jsstring) (lastIndex : nat)
    (parts : list jsstring) : list jsstring * nat :=
  match fuel with
  | O => (parts, lastIndex)
  | S fuel' =>
      match tokenRe_exec pattern lastIndex with
      | None => (parts, lastIndex)
      | Some (index, len) =>
          let parts1 :=
            if (lastIndex <? index)%nat
            then parts ++ [wrapLiteral (slice pattern lastIndex index)]
            else parts in
          escapeLoop fuel' pattern (index + len)
            (parts1 ++ [slice pattern index (index + len)])
      end
  end.

Definition escapeLiteralForMoment (pattern : jsstring) : jsstring :=
  let '(parts, lastIndex) :=
    escapeLoop (S (length pattern)) pattern 0 [] in
  let parts' :=
    if (lastIndex <? length pattern)%nat
    then parts ++ [wrapLiteral (slice pattern lastIndex (length pattern))]
    else parts in
  concat parts'.

(** A pattern of literal text only: [tokenRe] matches nowhere in it. *)
Definition literalOnly (pattern : jsstring) : Prop :=
  tokenRe_exec pattern 0 = None.

(** ** The host: calendar, clock and formatter *)

(** A [moment] at local midnight of a calendar day.  Every moment the code
    builds is one: [toSolar] goes through [new Date(y, m - 1, d)] and
    [findNextSolar] through [startOf("day")]. *)
Record Moment : Type := mkMoment {
  mYear : Z;
  mMonth : Z;
  mDate : Z
}.

(** [a.isSameOrAfter(b, "day")] on calendar days. *)
Definition isSameOrAfter (a b : Moment) : bool :=
  (mYear b <? mYear a)
  || ((mYear a =? mYear b)
      && ((mMonth b <? mMonth a)
          || ((mMonth a =? mMonth b) && (mDate b <=? mDate a)))).

(** The collaborators the plugin imports from [lunar-typescript] and
    [moment].  A call that throws is [None]. *)
Class Host : Type := {
  (** [LunarYear.fromYear(year).getLeapMonth()]: the number of the leap
      month of the lunar year, 0 when it has none. *)
  getLeapMonth : Z -> option Z;
  (** [Lunar.fromYmd(year, month, day).getSolar()], turned into a moment;
      a negative month denotes the leap month. *)
  lunarToSolar : Z -> Z -> Z -> option Moment;
  (** [moment().startOf("day")]. *)
  today : Moment;
  (** [m.format(pattern)]. *)
  format : Moment -> jsstring -> jsstring
}.

(** Dates of an earlier lunar year come before dates of a later one. *)
Definition lunarYearsInOrder `{Host} : Prop :=
  forall y1 y2 m1 m2 d1 d2 s1 s2,
    y1 < y2 ->
    lunarToSolar y1 m1 d1 = Some s1 ->
    lunarToSolar y2 m2 d2 = Some s2 ->
    isSameOrAfter s1 s2 = false.

(** The escaping rule of the formatter: a pattern that is one pair of
    square brackets around a text without an opening bracket prints that
    text as it stands. *)
Definition bracketsPrintVerbatim `{Host} : Prop :=
  forall (m : Moment) (text : jsstring),
    lbracket ∉ text ->
    format m (lbracket :: text ++ [rbracket]) = text.

Inductive OutputMode : Type := single | range.

Record LunarSolarSettings : Type := mkSettings {
  sourceKey : jsstring;
  outputMode : OutputMode;
  outputKeySingle : jsstring;
  outputDateFormat : jsstring;
  outputKeyPattern : jsstring;
  rangePast : Z;
  rangeFuture : Z;
  defaultLeapStrategy : LeapStrategy;
  leapStrategyKey : jsstring;
  targets : list jsstring
}.

Record ResolvedMonth : Type := mkResolved {
  rMonth : Z;
  rIsLeap : bool
}.

(** A note: its metadata block, decoded, and the text behind it.  The
    metadata cache and the YAML codec are taken to agree with the file, so
    one finite map stands for [cache.frontmatter], for
    [parseYaml(match[1])] and for what [stringifyYaml] writes back. *)
Record Document : Type := mkDocument {
  frontmatter : option (gmap (list N) JsValue);
  body : jsstring
}.

Inductive Status : Type := updated | unchanged | skipped | failed.

Record ProcessResult : Type := mkResult {
  status : Status;
  reason : option jsstring
}.

Section Core.
Context `{Host}.

Definition yearHasLeapMonth (y m : Z) : bool :=
  match getLeapMonth y with
  | Some leapMonth => leapMonth =? m
  | None => false
  end.

Definition resolveLunarMonth (y : Z) (lunar : LunarDate)
    (strategy : StrategyValue) : option ResolvedMonth :=
  if negb (isLeap lunar) then Some (mkResolved (month lunar) false)
  else
    let hasLeap := yearHasLeapMonth y (month lunar) in
    match strategy with
    | Strategy strict =>
        if negb hasLeap then None
        else Some (mkResolved (month lunar) true)
    | Strategy forward =>
        if hasLeap then Some (mkResolved (month lunar) true)
        else Some (mkResolved (month lunar) false)
    | Strategy backward =>
        if hasLeap then Some (mkResolved (month lunar) true)
        else
          let nextMonth :=
            if month lunar =? 12 then 12 else month lunar + 1 in
          Some (mkResolved nextMonth false)
    | ProtoMember _ => None
    end.

Definition toSolar (y : Z) (lunar : LunarDate) (strategy : StrategyValue)
  : option Moment :=
  match resolveLunarMonth y lunar strategy with
  | None => None
  | Some resolved =>
      let lunarMonth :=
        if rIsLeap resolved then - rMonth resolved else rMonth resolved in
      lunarToSolar y lunarMonth (day lunar)
  end.

Definition MAX_SEARCH_YEARS : nat := 80.

(** The [for] loop of [findNextSolar] with [n] rounds to go, at [i]. *)
Fixpoint findNextSolar_from (n : nat) (i : Z) (lunar : LunarDate)
    (strategy : StrategyValue) : option Moment :=
  match n with
  | O => None
  | S n' =>
      let targetYear := mYear today + i in
      match toSolar targetYear lunar strategy with
      | Some solar =>
          if isSameOrAfter solar today then Some solar
          else findNextSolar_from n' (i + 1) lunar strategy
      | None => findNextSolar_from n' (i + 1) lunar strategy
      end
  end.

Definition findNextSolar (lunar : LunarDate) (strategy : StrategyValue)
  : option Moment :=
  findNextSolar_from MAX_SEARCH_YEARS 0 lunar strategy.

(** One round of the loop of [buildRangeOutputs], for the year [y]. *)
Definition rangeStep (lunar : LunarDate) (strategy : StrategyValue)
    (keyPattern dateFormat : jsstring) (y : Z)
    (result : gmap (list N) (list N)) : gmap (list N) (list N) :=
  match toSolar y lunar strategy with
  | None => result
  | Some solar =>
      JsObject.set (format solar keyPattern) (format solar dateFormat) result
  end.

(** The loop with [n] years to go, the next one being [y]. *)
Fixpoint rangeLoop (n : nat) (y : Z) (lunar : LunarDate)
    (strategy : StrategyValue) (keyPattern dateFormat : jsstring)
    (result : gmap (list N) (list N)) : gmap (list N) (list N) :=
  match n with
  | O => result
  | S n' =>
      rangeLoop n' (y + 1) lunar strategy keyPattern dateFormat
        (rangeStep lunar strategy keyPattern dateFormat y result)
  end.

Definition buildRangeOutputs (lunar : LunarDate) (strategy : StrategyValue)
    (settings : LunarSolarSettings) (centerYear : Z)
  : gmap (list N) (list N) :=
  let keyPattern := escapeLiteralForMoment (outputKeyPattern settings) in
  let first := centerYear - rangePast settings in
  let last := centerYear + rangeFuture settings in
  rangeLoop (Z.to_nat (last - first + 1)) first lunar strategy
    keyPattern (outputDateFormat settings) ∅.

(** [data[key] !== value] for a string [value]. *)
Definition differs (data : gmap (list N) JsValue) (key value : jsstring)
  : bool :=
  match JsObject.get data key with
  | JsObject.Own (VString s) => negb (bool_decide (s = value))
  | _ => true
  end.

(** The body of the [forEach] of [writeFrontmatter]. *)
Definition writeEntry (acc : gmap (list N) JsValue * bool)
    (entry : jsstring * jsstring) : gmap (list N) JsValue * bool :=
  let '(data, changed) := acc in
  let '(key, value) := entry in
  if differs data key value
  then (JsObject.set key (VString value) data, true)
  else (data, changed).

(** Whether the note was rewritten, and the note afterwards. *)
Definition writeFrontmatter (doc : Document)
    (updates : gmap (list N) (list N)) : bool * Document :=
  let data := default ∅ (frontmatter doc) in
  let '(data', changed) :=
    foldl writeEntry (data, false) (map_to_list updates) in
  if changed
  then (true, mkDocument (Some data') (body doc))
  else (false, doc).

Definition skip (why : string) (doc : Document) : ProcessResult * Document :=
  (mkResult skipped (Some (js why)), doc).

(** The result of a run and the note afterwards.  The host calls are
    total here and reading and writing the note always succeed, so the
    [catch] clause, which reports [failed] with the reason [exception],
    is never entered: this is the run in which nothing throws.  What is
    proved of a run below names the statuses [updated], [unchanged] and
    [skipped] it speaks of. *)
Definition processFile (settings : LunarSolarSettings) (doc : Document)
  : ProcessResult * Document :=
  match frontmatter doc with
  | None => skip "no-frontmatter" doc
  | Some fm =>
      match JsObject.get fm (sourceKey settings) with
      | JsObject.Own (VString raw) =>
          match parseLunar raw with
          | None => skip "invalid-format" doc
          | Some lunar =>
              let field :=
                match JsObject.get fm (leapStrategyKey settings) with
                | JsObject.Own v => v
                | JsObject.Inherited name => VFunction name
                | JsObject.Missing => VUndefined
                end in
              let leapStrategy :=
                parseLeapStrategy field (defaultLeapStrategy settings) in
              let finish updates :=
                let '(changed, doc') := writeFrontmatter doc updates in
                (mkResult (if changed then updated else unchanged) None,
                 doc') in
              match outputMode settings with
              | single =>
                  match findNextSolar lunar leapStrategy with
                  | None => skip "no-solar" doc
                  | Some solar =>
                      finish
                        (JsObject.set (outputKeySingle settings)
                           (format solar (outputDateFormat settings)) ∅)
                  end
              | range =>
                  let updates :=
                    buildRangeOutputs lunar leapStrategy settings
                      (mYear today) in
                  if (size updates =? 0)%nat
                  then skip "no-solar" doc
                  else finish updates
              end
          end
      | _ => skip "no-source-key" doc
      end
  end.

End Core.

(** The two fields a run reads, the source field and the override field,
    read the same in both notes. *)
Definition sourceUnchanged (settings : LunarSolarSettings)
    (before after : Document) : Prop :=
  match frontmatter before, frontmatter after with
  | Some fm, Some fm' =>
      JsObject.get fm' (sourceKey settings)
      = JsObject.get fm (sourceKey settings)
      /\ JsObject.get fm' (leapStrategyKey settings)
         = JsObject.get fm (leapStrategyKey settings)
  | None, None => True
  | _, _ => False
  end.

(** ** [getMarkdownFiles], [reportResult] and [runOnAll] *)

Definition slash : N := 47%N.

(** [s.startsWith(prefix)]. *)
Definition startsWith (s prefix : jsstring) : bool :=
  match stripPrefix prefix s with
  | Some _ => true
  | None => false
  end.

(** [s.endsWith(suffix)]. *)
Definition endsWith (s suffix : jsstring) : bool :=
  startsWith (rev s) (rev suffix).

(** The body of [targets.some]: whether a target selects a path. *)
Definition matchesTarget (path target : jsstring) : bool :=
  if bool_decide (path = target) then true
  else
    let folderPrefix :=
      if endsWith target [slash] then target else target ++ [slash] in
    startsWith path folderPrefix.

(** [targets.map((t) => normalizePath(t.trim())).filter(Boolean)], with
    [normalizePath] of the host application as a parameter. *)
Definition cleanTargets (normalizePath : jsstring -> jsstring)
    (raw : list jsstring) : list jsstring :=
  List.filter (fun t => negb (bool_decide (t = [])))
    (List.map (fun t => normalizePath (trim t)) raw).

(** The paths a run over all notes visits, out of the listing
    [markdownFiles] of the vault. *)
Definition getMarkdownFiles (normalizePath : jsstring -> jsstring)
    (settings : LunarSolarSettings) (markdownFiles : list jsstring)
  : list jsstring :=
  match cleanTargets normalizePath (targets settings) with
  | [] => markdownFiles
  | cleaned =>
      List.filter (fun path => existsb (matchesTarget path) cleaned)
        markdownFiles
  end.

(** The four counters of [reportResult], which the notice shows. *)
Record Tally : Type := mkTally {
  nUpdated : nat;
  nUnchanged : nat;
  nSkipped : nat;
  nFailed : nat
}.

(** The body of the [forEach] of [reportResult]. *)
Definition tally (t : Tally) (r : ProcessResult) : Tally :=
  match status r with
  | updated => mkTally (nUpdated t + 1) (nUnchanged t) (nSkipped t) (nFailed t)
  | unchanged => mkTally (nUpdated t) (nUnchanged t + 1) (nSkipped t) (nFailed t)
  | skipped => mkTally (nUpdated t) (nUnchanged t) (nSkipped t + 1) (nFailed t)
  | failed => mkTally (nUpdated t) (nUnchanged t) (nSkipped t) (nFailed t + 1)
  end.

Definition reportResult (results : list ProcessResult) : Tally :=
  foldl tally (mkTally 0 0 0 0) results.

Section Batch.
Context `{Host}.

(** One round of the loop of [runOnAll]: the note at [path] is processed
    and stored back.  A path without a note has no cache entry, which
    [processFile] reports as a note without metadata. *)
Definition processPath (settings : LunarSolarSettings)
    (vault : gmap (list N) Document) (path : jsstring)
  : ProcessResult * gmap (list N) Document :=
  match vault !! path with
  | Some doc =>
      let '(r, doc') := processFile settings doc in
      (r, <[path := doc']> vault)
  | None => (mkResult skipped (Some (js "no-frontmatter")), vault)
  end.

(** The loop of [runOnAll]: the results in the order of the files, and the
    vault afterwards. *)
Fixpoint runFiles (settings : LunarSolarSettings) (files : list jsstring)
    (vault : gmap (list N) Document)
  : list ProcessResult * gmap (list N) Document :=
  match files with
  | [] => ([], vault)
  | path :: rest =>
      let '(r, vault1) := processPath settings vault path in
      let '(rs, vault2) := runFiles settings rest vault1 in
      (r :: rs, vault2)
  end.

Definition runOnAll (normalizePath : jsstring -> jsstring)
    (settings : LunarSolarSettings) (markdownFiles : list jsstring)
    (vault : gmap (list N) Document) : Tally * gmap (list N) Document :=
  let files := getMarkdownFiles normalizePath settings markdownFiles in
  let '(results, vault') := runFiles settings files vault in
  (reportResult results, vault').

End Batch.

(** ** The reasons of a result *)

(** What the three early reasons say about a note, and what holds of
    every result. *)
Definition reasonsTell (settings : LunarSolarSettings) (doc : Document)
    (out : ProcessResult * Document) : Prop :=
  (reason out.1 = Some (js "no-frontmatter") <-> frontmatter doc = None)
  /\ (reason out.1 = Some (js "no-source-key") <->
      exists fm, frontmatter doc = Some fm
        /\ forall raw, JsObject.get fm (sourceKey settings)
                       <> JsObject.Own (VString raw))
  /\ (reason out.1 = Some (js "invalid-format") <->
      exists fm raw, frontmatter doc = Some fm
        /\ JsObject.get fm (sourceKey settings) = JsObject.Own (VString raw)
        /\ parseLunar raw = None)
  /\ (reason out.1 = None <->
      status out.1 = updated \/ status out.1 = unchanged)
  /\ (status out.1 = skipped <->
      exists why, reason out.1 = Some (js why)
        /\ In why ["no-frontmatter"; "no-source-key"; "invalid-format";
                   "no-solar"]%string)
  /\ (status out.1 = skipped -> out.2 = doc).

(** ** The text fields of the settings tab *)

(** [value.trim() || fallback], what the [onChange] handlers of the key
    names, the key template and the date format store. *)
Definition textSetting (value fallback : jsstring) : jsstring :=
  match trim value with
  | [] => fallback
  | trimmed => trimmed
  end.

(** ** A test double for the host *)

Module TestHost.

(** Leap months of a few lunar years; years outside 1900..2100 throw. *)
Definition leapMonthOf (y : Z) : option Z :=
  if (y <? 1900) || (2100 <? y) then None
  else Some (if y =? 2020 then 4
             else if y =? 2023 then 2
             else if y =? 2025 then 6
             else if y =? 2028 then 5
             else 0).

(** A calendar in which the lunar day [y-m-d] falls on the solar day of
    the same numbers; months have 30 days, and a leap month exists only
    in the year that has it. *)
Definition convert (y m d : Z) : option Moment :=
  if (1 <=? Z.abs m) && (Z.abs m <=? 12) && (1 <=? d) && (d <=? 30)
     && ((0 <? m) || bool_decide (leapMonthOf y = Some (- m)))
  then Some (mkMoment y (Z.abs m) d)
  else None.

Definition digit (n : Z) : N := Z.to_N (48 + n mod 10).

Definition pad2 (n : Z) : jsstring := [digit (n / 10); digit n].

Definition pad4 (n : Z) : jsstring :=
  [digit (n / 1000); digit (n / 100); digit (n / 10); digit n].

(** Whether a closing bracket comes before the next opening one. *)
Fixpoint hasCloser (p : jsstring) : bool :=
  match p with
  | [] => false
  | c :: rest =>
      if (c =? rbracket)%N then true
      else if (c =? lbracket)%N then false
      else hasCloser rest
  end.

(** A formatter with the tokens [YYYY], [MM] and [DD] and the bracket
    escape: a bracketed run reaches to its last closing bracket. *)
Fixpoint render (inside : bool) (m : Moment) (p : jsstring) : jsstring :=
  match p with
  | [] => []
  | c :: rest =>
      if inside then
        if (c =? rbracket)%N && negb (hasCloser rest)
        then render false m rest
        else c :: render true m rest
      else if (c =? lbracket)%N && hasCloser rest then render true m rest
      else
        match p with
        | 89%N :: 89%N :: 89%N :: 89%N :: rest' =>
            pad4 (mYear m) ++ render false m rest'
        | 77%N :: 77%N :: rest' => pad2 (mMonth m) ++ render false m rest'
        | 68%N :: 68%N :: rest' => pad2 (mDate m) ++ render false m rest'
        | _ => c :: render false m rest
        end
  end.

Definition host : Host := {|
  getLeapMonth := leapMonthOf;
  lunarToSolar := convert;
  today := mkMoment 2025 6 15;
  format := render false
|}.

(** The default name of the override field. *)
Definition overrideKey : jsstring :=
  [38384; 26376; 22788; 29702; 27169; 24335]%N.

(** [DEFAULT_SETTINGS], with the output mode left open. *)
Definition settings (mode : OutputMode) : LunarSolarSettings :=
  {| sourceKey := js "lunar-birthday";
     outputMode := mode;
     outputKeySingle := js "birthday";
     outputDateFormat := js "YYYY-MM-DD";
     outputKeyPattern := js "[birthday]-YYYY";
     rangePast := 1;
     rangeFuture := 1;
     defaultLeapStrategy := forward;
     leapStrategyKey := overrideKey;
     targets := [] |}.

Definition note (source : jsstring) : Document :=
  {| frontmatter := Some {[ js "lunar-birthday" := VString source ]};
     body := js "text" |}.

End TestHost.

Example escape_default_pattern :
  escapeLiteralForMoment (js "[birthday]-YYYY") = js "[birthday][-]YYYY".
Proof. vm_compute. reflexivity. Qed.

Example escape_mixed :
  escapeLiteralForMoment (js "on Do of MMMM!")
  = js "[on ]D[o of ]MMMM[!]".
Proof. vm_compute. reflexivity. Qed.

Example parseLunar_plain :
  parseLunar (js "2023-02-10") = Some (mkLunarDate 2023 2 10 false).
Proof. vm_compute. reflexivity. Qed.

Example parseLunar_tagged_leap :
  parseLunar (tag_lunar ++ js " 2023-" ++ [leap_marker] ++ js "02-10 ")
  = Some (mkLunarDate 2023 2 10 true).
Proof. vm_compute. reflexivity. Qed.

Example parseLunar_leading_ws_before_tag :
  parseLunar (js " " ++ tag_lunar ++ js "2023-02-10") = None.
Proof. vm_compute. reflexivity. Qed.

Example parseLeapStrategy_strict :
  parseLeapStrategy (VString (js " strict ")) forward = Strategy strict.
Proof. vm_compute. reflexivity. Qed.

Example processFile_single :
  processFile (H := TestHost.host) (TestHost.settings single)
    (TestHost.note (js "2023-02-10"))
  = (mkResult updated None,
     mkDocument
       (Some (<[ js "birthday" := VString (js "2026-02-10") ]>
                {[ js "lunar-birthday" := VString (js "2023-02-10") ]}))
       (js "text")).
Proof. vm_compute. reflexivity. Qed.

Example processFile_range :
  buildRangeOutputs (H := TestHost.host) (mkLunarDate 2023 2 10 false)
    (Strategy forward) (TestHost.settings range) 2025
  = list_to_map
      [ (js "birthday-2024", js "2024-02-10");
        (js "birthday-2025", js "2025-02-10");
        (js "birthday-2026", js "2026-02-10") ].
Proof. vm_compute. reflexivity. Qed.

(** The example of the specification: a date in leap month 2, under
    [forward], in a year without that leap month. *)
Example resolve_forward_without_leap :
  resolveLunarMonth (H := TestHost.host) 2024 (mkLunarDate 2023 2 10 true)
    (Strategy forward) = Some (mkResolved 2 false).
Proof. reflexivity. Qed.

(** A leap date in a note whose override field reads [constructor]: the
    default strategy [forward] would find 2026-02-10, the run finds
    nothing. *)
Example processFile_constructor_override :
  let source := js "2023-" ++ [leap_marker] ++ js "02-10" in
  let fm : gmap (list N) JsValue :=
    {[ js "lunar-birthday" := VString source ]} in
  let doc :=
    mkDocument
      (Some (<[ TestHost.overrideKey := VString (js "constructor") ]> fm))
      (js "text") in
  processFile (H := TestHost.host) (TestHost.settings single)
    (mkDocument (Some fm) (js "text"))
  = (mkResult updated None,
     mkDocument (Some (<[ js "birthday" := VString (js "2026-02-10") ]> fm))
       (js "text"))
  /\ processFile (H := TestHost.host) (TestHost.settings single) doc
     = (mkResult skipped (Some (js "no-solar")), doc).
Proof. split; vm_compute; reflexivity. Qed.

(** * Leap-month resolution *)

Section LeapResolution.
Context `{Host}.

Lemma yearHasLeapMonth_true (y m : Z) :
  yearHasLeapMonth y m = true <-> getLeapMonth y = Some m.
Proof.
  unfold yearHasLeapMonth. destruct (getLeapMonth y) as [l|]; split; intros E.
  - apply Z.eqb_eq in E. now subst.
  - injection E as ->. apply Z.eqb_refl.
  - discriminate.
  - discriminate.
Qed.

(** C5.  A date that is not in a leap month resolves to its own month,
    not leap, whatever the target year and whatever the strategy: the
    three variants, and even a value that is no variant at all.  The
    conversion is then asked for that month of the target year, so the
    strategy has no effect on the day either. *)
Theorem resolveLunarMonth_not_leap
    (target : Z) (lunar : LunarDate) (strategy : StrategyValue) :
  isLeap lunar = false ->
  resolveLunarMonth target lunar strategy
  = Some (mkResolved (month lunar) false)
  /\ toSolar target lunar strategy
     = lunarToSolar target (month lunar) (day lunar).
Proof.
  intros Hleap. unfold toSolar, resolveLunarMonth. rewrite Hleap. cbn.
  split; reflexivity.
Qed.



(** A value that is no variant resolves no leap date: the last line of
    [resolveLunarMonth] is reached, and [toSolar] has no day. *)
Lemma toSolar_ProtoMember (target : Z) (lunar : LunarDate) (name : jsstring) :
  isLeap lunar = true ->
  resolveLunarMonth target lunar (ProtoMember name) = None
  /\ toSolar target lunar (ProtoMember name) = None.
Proof.
  intros Hleap. unfold toSolar, resolveLunarMonth. now rewrite Hleap.
Qed.

End LeapResolution.

Lemma resolveLunarMonth_not_leap_witness :
  resolveLunarMonth (H := TestHost.host) 2025 (mkLunarDate 2023 2 10 false)
    (Strategy strict) = Some (mkResolved 2 false)
  /\ toSolar (H := TestHost.host) 2025 (mkLunarDate 2023 2 10 false)
       (Strategy strict) = Some (mkMoment 2025 2 10).
Proof.
  apply (@resolveLunarMonth_not_leap TestHost.host 2025
           (mkLunarDate 2023 2 10 false) (Strategy strict)).
  reflexivity.
Defined.


(** A leap date of month 13 is what [parseLunar] makes of a text with
    the leap marker and the digits 13. *)
Example parseLunar_leap_month_13 :
  parseLunar (js "2023-" ++ leap_marker :: js "13-01")
  = Some (mkLunarDate 2023 13 1 true).
Proof. vm_compute. reflexivity. Qed.


(** * The leap-strategy override *)

Section Trim.

Lemma trimStart_length (s : jsstring) :
  (length (trimStart s) <= length s)%nat.
Proof.
  induction s as [|c s IH]; cbn; [lia|].
  destruct (isWhiteSpace c); cbn; lia.
Qed.

Lemma trimStart_whitespace_app (l t : jsstring) :
  forallb isWhiteSpace l = true -> trimStart (l ++ t) = trimStart t.
Proof.
  induction l as [|c l IH]; cbn; [reflexivity|].
  intros [Hc Hl]%andb_prop. rewrite Hc. auto.
Qed.

(** A non-empty text that [trimStart] leaves alone starts with something
    else than white space, and so does any text it is a prefix of. *)
Lemma trimStart_fixed_app (s r : jsstring) :
  s <> [] -> trimStart s = s -> trimStart (s ++ r) = s ++ r.
Proof.
  destruct s as [|c s]; [congruence|]. intros _. cbn.
  destruct (isWhiteSpace c); [|reflexivity].
  intros E. pose proof (trimStart_length s) as Hlen.
  rewrite E in Hlen. cbn in Hlen. lia.
Qed.

Lemma forallb_rev (f : N -> bool) (l : jsstring) :
  forallb f (rev l) = forallb f l.
Proof.
  induction l as [|c l IH]; cbn; [reflexivity|].
  rewrite forallb_app, IH. cbn. rewrite andb_true_r. apply andb_comm.
Qed.

(** White space around a text that has none at either end is exactly
    what [trim] takes away. *)
Lemma trim_surrounded (l s r : jsstring) :
  forallb isWhiteSpace l = true ->
  forallb isWhiteSpace r = true ->
  s <> [] -> trimStart s = s -> trimStart (rev s) = rev s ->
  trim (l ++ s ++ r) = s.
Proof.
  intros Hl Hr Hne Hs Hrs. unfold trim, trimEnd.
  rewrite trimStart_whitespace_app by assumption.
  rewrite trimStart_fixed_app by assumption.
  rewrite rev_app_distr.
  rewrite trimStart_whitespace_app by now rewrite forallb_rev.
  rewrite Hrs. apply rev_involutive.
Qed.

End Trim.

Section Override.

(** The own properties of the lookup table. *)
Lemma lookup_recognized (s : jsstring) (v : LeapStrategy) :
  (s, v) ∈ LEAP_STRATEGY_ENTRIES ->
  JsObject.get LEAP_STRATEGY_LOOKUP s = JsObject.Own v
  /\ s <> [] /\ trimStart s = s /\ trimStart (rev s) = rev s.
Proof.
  unfold LEAP_STRATEGY_ENTRIES. rewrite !elem_of_cons, elem_of_nil.
  intros [E|[E|[E|[E|[E|[E|[]]]]]]]; injection E as -> ->;
    (split; [vm_compute; reflexivity|]);
    (split; [discriminate|]); split; vm_compute; reflexivity.
Qed.

(** C10.  The override is trimmed before it is looked up: each of the six
    recognized texts, with any white space before and after it, yields
    the variant the table gives for the text itself, not the fallback. *)
Theorem parseLeapStrategy_trims
    (s l r : jsstring) (v fallback : LeapStrategy) :
  (s, v) ∈ LEAP_STRATEGY_ENTRIES ->
  forallb isWhiteSpace l = true ->
  forallb isWhiteSpace r = true ->
  parseLeapStrategy (VString (l ++ s ++ r)) fallback = Strategy v.
Proof.
  intros Hin Hl Hr.
  destruct (lookup_recognized s v Hin) as (Hget & Hne & Hs & Hrs).
  unfold parseLeapStrategy. cbv zeta.
  rewrite (trim_surrounded l s r Hl Hr Hne Hs Hrs), Hget. reflexivity.
Qed.

(** What the lookup returns on a value that is not a string. *)
Lemma parseLeapStrategy_not_string (value : JsValue) (fallback : LeapStrategy) :
  (forall s, value <> VString s) ->
  parseLeapStrategy value fallback = Strategy fallback.
Proof. destruct value; intros Hs; try reflexivity. now destruct (Hs s). Qed.

(** What the lookup returns on a text that is, once trimmed, neither an
    own property of the table nor a member of [Object.prototype]. *)
Lemma parseLeapStrategy_unknown (s : jsstring) (fallback : LeapStrategy) :
  trim s ∉ LEAP_STRATEGY_ENTRIES.*1 ->
  trim s ∉ JsObject.prototype_keys ->
  parseLeapStrategy (VString s) fallback = Strategy fallback.
Proof.
  intros Hown Hproto. unfold parseLeapStrategy, JsObject.get. cbv zeta.
  unfold LEAP_STRATEGY_LOOKUP.
  rewrite (proj1 (not_elem_of_list_to_map _ _) Hown).
  now rewrite bool_decide_eq_false_2.
Qed.

(** The lookup always returns: a variant, or the name of a member of
    [Object.prototype] that the trimmed text spells. *)
Lemma parseLeapStrategy_result (value : JsValue) (fallback : LeapStrategy) :
  (exists v, parseLeapStrategy value fallback = Strategy v)
  \/ (exists s, value = VString s /\ trim s ∈ JsObject.prototype_keys
                /\ parseLeapStrategy value fallback = ProtoMember (trim s)).
Proof.
  destruct value; try (left; eexists; reflexivity).
  unfold parseLeapStrategy, JsObject.get. cbv zeta.
  destruct (LEAP_STRATEGY_LOOKUP !! trim s) as [v|]; [left; eauto|].
  case_bool_decide as Hp; [right; eauto|left; eauto].
Qed.

(** C8, at the text [constructor].  The table is a plain object, so the
    lookup finds the member that every object inherits; it is truthy and
    is returned as it is.  The result is none of the three variants, and
    in particular not the fallback. *)
Theorem parseLeapStrategy_constructor (fallback : LeapStrategy) :
  parseLeapStrategy (VString (js "constructor")) fallback
  = ProtoMember (js "constructor")
  /\ forall v, parseLeapStrategy (VString (js "constructor")) fallback
               <> Strategy v.
Proof. split; [vm_compute; reflexivity|]. intros v. vm_compute. discriminate. Qed.

End Override.

Lemma parseLeapStrategy_trims_witness :
  parseLeapStrategy (VString (js "  " ++ label_backward ++ [12288%N; 10%N]))
    strict
  = Strategy backward.
Proof.
  apply (parseLeapStrategy_trims label_backward (js "  ") [12288%N; 10%N]
           backward strict).
  - unfold LEAP_STRATEGY_ENTRIES. rewrite !elem_of_cons. auto.
  - reflexivity.
  - reflexivity.
Defined.

(** * The source notation *)

Section Notation.

Lemma digits_spec (n : nat) (s ds rest : jsstring) :
  digits n s = Some (ds, rest) ->
  length ds = n /\ forallb isDigit ds = true /\ s = ds ++ rest.
Proof.
  revert s ds rest. induction n as [|n IH]; intros s ds rest; cbn.
  - intros [= <- <-]. auto.
  - destruct s as [|c s]; [discriminate|].
    destruct (isDigit c) eqn:Hc; [|discriminate].
    destruct (digits n s) as [[ds' rest']|] eqn:E; cbn; [|discriminate].
    intros [= <- <-]. destruct (IH _ _ _ E) as (Hlen & Hall & ->).
    cbn. rewrite Hc, Hall, Hlen. auto.
Qed.

Lemma digitValue_range (c : N) :
  isDigit c = true -> 0 <= digitValue c <= 9.
Proof.
  unfold isDigit, digitValue. intros [H1 H2]%andb_prop.
  apply N.leb_le in H1, H2. lia.
Qed.

Lemma fold_digits_range (ds : jsstring) (acc : Z) :
  forallb isDigit ds = true ->
  let r := fold_left (fun a c => 10 * a + digitValue c) ds acc in
  acc * 10 ^ Z.of_nat (length ds) <= r
  /\ r < (acc + 1) * 10 ^ Z.of_nat (length ds).
Proof.
  revert acc. induction ds as [|c ds IH]; intros acc Hall; cbn -[Z.pow Z.of_nat].
  - cbn. lia.
  - cbn in Hall. apply andb_prop in Hall as [Hc Hds].
    pose proof (digitValue_range c Hc) as Hd.
    specialize (IH (10 * acc + digitValue c) Hds). cbv zeta in IH.
    cbn [length]. rewrite Nat2Z.inj_succ, Z.pow_succ_r by lia.
    assert (0 < 10 ^ Z.of_nat (length ds)) by (apply Z.pow_pos_nonneg; lia).
    nia.
Qed.

(** [Number] of [n] digits is a natural number below [10 ^ n]. *)
Lemma Number_range (ds : jsstring) (n : nat) :
  length ds = n -> forallb isDigit ds = true ->
  0 <= Number ds < 10 ^ Z.of_nat n.
Proof.
  intros <- Hall. pose proof (fold_digits_range ds 0 Hall) as Hr.
  cbv zeta in Hr. unfold Number. lia.
Qed.

Lemma LUNAR_INPUT_RE_groups (raw : jsstring) (m : LunarMatch) :
  LUNAR_INPUT_RE raw = Some m ->
  (length (yearStr m) = 4%nat /\ forallb isDigit (yearStr m) = true)
  /\ (length (monthStr m) = 2%nat /\ forallb isDigit (monthStr m) = true)
  /\ (length (dayStr m) = 2%nat /\ forallb isDigit (dayStr m) = true).
Proof.
  unfold LUNAR_INPUT_RE. cbv zeta.
  destruct (digits 4 _) as [[y s2]|] eqn:Ey; cbn -[digits literal];
    [|discriminate].
  destruct (literal hyphen s2) as [s3|]; cbn -[digits literal];
    [|discriminate].
  destruct (digits 2 (default s3 (literal leap_marker s3)))
    as [[mo s5]|] eqn:Em; cbn -[digits literal]; [|discriminate].
  destruct (literal hyphen s5) as [s6|]; cbn -[digits literal];
    [|discriminate].
  destruct (digits 2 s6) as [[d s7]|] eqn:Ed; cbn -[digits literal];
    [|discriminate].
  destruct (forallb isWhiteSpace s7); [|discriminate].
  intros [= <-]. cbn.
  apply digits_spec in Ey as (? & ? & _), Em as (? & ? & _), Ed as (? & ? & _).
  auto.
Qed.

(** C7, as the code has it.  An accepted text yields the numbers its
    digits spell: a year of four digits and a month and a day of two
    digits each.  Nothing narrows the month to 1..12 or the day to
    1..30. *)
Theorem parseLunar_ranges (raw : jsstring) (lunar : LunarDate) :
  parseLunar raw = Some lunar ->
  0 <= year lunar <= 9999
  /\ 0 <= month lunar <= 99
  /\ 0 <= day lunar <= 99.
Proof.
  unfold parseLunar.
  destruct (LUNAR_INPUT_RE raw) as [m|] eqn:E; [|discriminate].
  intros [= <-]. cbn.
  destruct (LUNAR_INPUT_RE_groups raw m E) as ((Ly & Dy) & (Lm & Dm) & (Ld & Dd)).
  pose proof (Number_range _ _ Ly Dy).
  pose proof (Number_range _ _ Lm Dm).
  pose proof (Number_range _ _ Ld Dd).
  change (10 ^ Z.of_nat 4) with 10000 in *.
  change (10 ^ Z.of_nat 2) with 100 in *.
  lia.
Qed.

(** C7, as the claim has it, fails: month 13 and day 45 are accepted. *)
Lemma parseLunar_accepts_month_13_day_45 :
  ~ (forall raw lunar,
        parseLunar raw = Some lunar ->
        1 <= month lunar <= 12 /\ 1 <= day lunar <= 30).
Proof.
  intros Hclaim.
  destruct (Hclaim (js "2023-13-45") (mkLunarDate 2023 13 45 false))
    as [Hm _]; [vm_compute; reflexivity|].
  cbn in Hm. lia.
Qed.

End Notation.

Lemma parseLunar_ranges_witness :
  0 <= 2023 <= 9999 /\ 0 <= 0 <= 99 /\ 0 <= 99 <= 99.
Proof.
  apply (parseLunar_ranges (js "2023-00-99") (mkLunarDate 2023 0 99 false)).
  vm_compute. reflexivity.
Defined.

(** * The next occurrence *)

Section CalendarDays.

Lemma isSameOrAfter_refl (a : Moment) : isSameOrAfter a a = true.
Proof.
  unfold isSameOrAfter.
  rewrite !Z.eqb_refl, Z.leb_refl, !orb_true_r. reflexivity.
Qed.

(** The order of calendar days is total. *)
Lemma isSameOrAfter_total (a b : Moment) :
  isSameOrAfter a b = false -> isSameOrAfter b a = true.
Proof.
  unfold isSameOrAfter. intros Hab.
  destruct (Z.ltb_spec (mYear b) (mYear a)); [discriminate|].
  destruct (Z.ltb_spec (mYear a) (mYear b)); [reflexivity|].
  replace (mYear a =? mYear b) with true in Hab by (symmetry; apply Z.eqb_eq; lia).
  replace (mYear b =? mYear a) with true by (symmetry; apply Z.eqb_eq; lia).
  cbn in *.
  destruct (Z.ltb_spec (mMonth b) (mMonth a)); [discriminate|].
  destruct (Z.ltb_spec (mMonth a) (mMonth b)); [reflexivity|].
  replace (mMonth a =? mMonth b) with true in Hab by (symmetry; apply Z.eqb_eq; lia).
  replace (mMonth b =? mMonth a) with true by (symmetry; apply Z.eqb_eq; lia).
  cbn in *. apply Z.leb_gt in Hab. apply Z.leb_le. lia.
Qed.

Lemma isSameOrAfter_later_year (a b : Moment) :
  mYear a < mYear b -> isSameOrAfter a b = false.
Proof.
  unfold isSameOrAfter. intros Hlt.
  replace (mYear b <? mYear a) with false by (symmetry; apply Z.ltb_ge; lia).
  replace (mYear a =? mYear b) with false by (symmetry; apply Z.eqb_neq; lia).
  reflexivity.
Qed.

End CalendarDays.

Section NextOccurrence.
Context `{Host}.

(** The loop from round [i] on, with [n] rounds to go. *)
Lemma findNextSolar_from_spec
    (n : nat) (i : Z) (lunar : LunarDate) (strategy : StrategyValue) :
  match findNextSolar_from n i lunar strategy with
  | Some solar =>
      isSameOrAfter solar today = true
      /\ exists k, i <= k < i + Z.of_nat n
           /\ toSolar (mYear today + k) lunar strategy = Some solar
           /\ forall j s, i <= j < k ->
                toSolar (mYear today + j) lunar strategy = Some s ->
                isSameOrAfter s today = false
  | None =>
      forall j s, i <= j < i + Z.of_nat n ->
        toSolar (mYear today + j) lunar strategy = Some s ->
        isSameOrAfter s today = false
  end.
Proof.
  revert i. induction n as [|n IH]; intros i.
  - cbn. intros j s Hj. lia.
  - cbn [findNextSolar_from]. cbv zeta.
    assert (Hskip :
      (forall s, toSolar (mYear today + i) lunar strategy = Some s ->
                 isSameOrAfter s today = false) ->
      match findNextSolar_from n (i + 1) lunar strategy with
      | Some solar =>
          isSameOrAfter solar today = true
          /\ exists k, i <= k < i + Z.of_nat (S n)
               /\ toSolar (mYear today + k) lunar strategy = Some solar
               /\ forall j s, i <= j < k ->
                    toSolar (mYear today + j) lunar strategy = Some s ->
                    isSameOrAfter s today = false
      | None =>
          forall j s, i <= j < i + Z.of_nat (S n) ->
            toSolar (mYear today + j) lunar strategy = Some s ->
            isSameOrAfter s today = false
      end).
    { intros Hi. specialize (IH (i + 1)).
      destruct (findNextSolar_from n (i + 1) lunar strategy) as [solar|].
      - destruct IH as (Hafter & k & Hk & Hto & Hfirst).
        split; [assumption|]. exists k.
        split; [lia|]. split; [assumption|].
        intros j s Hj Hs. destruct (Z.eq_dec j i) as [->|Hne]; [auto|].
        apply (Hfirst j s); [lia|assumption].
      - intros j s Hj Hs. destruct (Z.eq_dec j i) as [->|Hne]; [auto|].
        apply (IH j s); [lia|assumption]. }
    destruct (toSolar (mYear today + i) lunar strategy) as [solar|] eqn:Hto.
    + destruct (isSameOrAfter solar today) eqn:Hafter.
      * split; [assumption|]. exists i.
        split; [lia|]. split; [assumption|].
        intros j s Hj. lia.
      * apply Hskip. intros s [= <-]. assumption.
    + apply Hskip. intros s [=].
Qed.

(** C1.  [findNextSolar] looks at the 80 years from the current one on,
    in order.  What it returns is a day on or after today, namely the
    day of the first year of the window whose day exists and is on or
    after today; when the calendar keeps the lunar years in order, no
    year of the window has an earlier such day.  It returns nothing
    exactly when no year of the window has such a day. *)
Theorem findNextSolar_earliest (lunar : LunarDate) (strategy : StrategyValue) :
  match findNextSolar lunar strategy with
  | Some solar =>
      isSameOrAfter solar today = true
      /\ exists i, 0 <= i < 80
           /\ toSolar (mYear today + i) lunar strategy = Some solar
           /\ (forall j s, 0 <= j < i ->
                 toSolar (mYear today + j) lunar strategy = Some s ->
                 isSameOrAfter s today = false)
           /\ (lunarYearsInOrder ->
               forall j s, 0 <= j < 80 ->
                 toSolar (mYear today + j) lunar strategy = Some s ->
                 isSameOrAfter s today = true ->
                 isSameOrAfter s solar = true)
  | None =>
      forall j s, 0 <= j < 80 ->
        toSolar (mYear today + j) lunar strategy = Some s ->
        isSameOrAfter s today = false
  end.
Proof.
  unfold findNextSolar.
  pose proof (findNextSolar_from_spec MAX_SEARCH_YEARS 0 lunar strategy) as Hspec.
  destruct (findNextSolar_from MAX_SEARCH_YEARS 0 lunar strategy) as [solar|].
  - destruct Hspec as (Hafter & i & Hi & Hto & Hfirst).
    change (0 + Z.of_nat MAX_SEARCH_YEARS) with 80 in Hi.
    split; [assumption|]. exists i.
    split; [lia|]. split; [assumption|]. split; [assumption|].
    intros Horder j s Hj Hs Hs_after.
    destruct (Z.lt_trichotomy j i) as [Hlt|[->|Hgt]].
    + rewrite (Hfirst j s) in Hs_after by (assumption || lia). discriminate.
    + rewrite Hto in Hs. injection Hs as ->. apply isSameOrAfter_refl.
    + apply isSameOrAfter_total.
      unfold toSolar in Hto, Hs.
      destruct (resolveLunarMonth (mYear today + i) lunar strategy); [|discriminate].
      destruct (resolveLunarMonth (mYear today + j) lunar strategy); [|discriminate].
      eapply Horder; [|exact Hto|exact Hs]. lia.
  - intros j s Hj. apply Hspec. change (0 + Z.of_nat MAX_SEARCH_YEARS) with 80. lia.
Qed.

End NextOccurrence.

Section TestHostFacts.

Lemma TestHost_convert_year (y m d : Z) (s : Moment) :
  TestHost.convert y m d = Some s -> mYear s = y.
Proof.
  unfold TestHost.convert. destruct (_ && _); [|discriminate].
  now intros [= <-].
Qed.

Lemma TestHost_yearsInOrder : lunarYearsInOrder (H := TestHost.host).
Proof.
  intros y1 y2 m1 m2 d1 d2 s1 s2 Hlt H1 H2. cbn in H1, H2.
  apply TestHost_convert_year in H1, H2.
  apply isSameOrAfter_later_year. lia.
Qed.

End TestHostFacts.

Lemma findNextSolar_earliest_witness :
  findNextSolar (H := TestHost.host) (mkLunarDate 2023 2 10 false)
    (Strategy forward) = Some (mkMoment 2026 2 10)
  /\ isSameOrAfter (mkMoment 2027 2 10) (mkMoment 2026 2 10) = true.
Proof.
  pose proof (@findNextSolar_earliest TestHost.host
                (mkLunarDate 2023 2 10 false) (Strategy forward)) as T.
  assert (E : findNextSolar (H := TestHost.host) (mkLunarDate 2023 2 10 false)
                (Strategy forward) = Some (mkMoment 2026 2 10))
    by (vm_compute; reflexivity).
  rewrite E in T. destruct T as (_ & i & _ & _ & _ & Hmin).
  split; [exact E|].
  apply (Hmin TestHost_yearsInOrder 2); [lia| vm_compute; reflexivity ..].
Defined.

(** * The token scanner *)

Section Scanner.

Lemma stripPrefix_length (lit s rest : jsstring) :
  stripPrefix lit s = Some rest ->
  length s = (length lit + length rest)%nat.
Proof.
  revert s. induction lit as [|a lit IH]; intros s; cbn.
  - intros [= <-]. reflexivity.
  - destruct s as [|b s]; [discriminate|].
    destruct (a =? b)%N; [|discriminate].
    intros E. cbn. now rewrite (IH s E).
Qed.

Lemma lazyToBracket_bounds (s : jsstring) (n : nat) :
  lazyToBracket s = Some n -> (1 <= n <= length s)%nat.
Proof.
  revert n. induction s as [|c s IH]; intros n; cbn; [discriminate|].
  destruct (c =? rbracket)%N; [intros [= <-]; lia|].
  destruct (isLineTerminator c); [discriminate|].
  destruct (lazyToBracket s) as [k|]; cbn; [|discriminate].
  intros [= <-]. specialize (IH k eq_refl). lia.
Qed.

(** A match of an alternative lies within the text, and is as long as its
    token at least. *)
Lemma matchAlternative_bounds (a : Alternative) (s : jsstring) (n : nat) :
  matchAlternative a s = Some n ->
  (n <= length s)%nat
  /\ match a with
     | Bracketed => (1 <= n)%nat
     | Lit t | LitOpt t _ => (length (js t) <= n)%nat
     end.
Proof.
  destruct a as [|t|t tail]; cbn [matchAlternative].
  - destruct s as [|c s]; [discriminate|].
    destruct (c =? lbracket)%N; [|discriminate].
    destruct (lazyToBracket s) as [k|] eqn:E; cbn; [|discriminate].
    intros [= <-]. apply lazyToBracket_bounds in E. cbn. lia.
  - destruct (stripPrefix (js t) s) as [rest|] eqn:E; [|discriminate].
    intros [= <-]. apply stripPrefix_length in E. lia.
  - destruct (stripPrefix (js t) s) as [rest|] eqn:E; [|discriminate].
    apply stripPrefix_length in E.
    destruct (stripPrefix (js tail) rest) as [rest'|] eqn:E';
      intros [= <-]; [apply stripPrefix_length in E'|]; lia.
Qed.

(** No alternative of [tokenRe] matches the empty text. *)
Lemma tokenRe_nonempty :
  Forall (fun a => match a with
                   | Bracketed => True
                   | Lit t | LitOpt t _ => (1 <= length (js t))%nat
                   end) tokenRe.
Proof. unfold tokenRe. repeat constructor. Qed.

Lemma matchFirst_bounds (alts : list Alternative) (s : jsstring) (n : nat) :
  Forall (fun a => match a with
                   | Bracketed => True
                   | Lit t | LitOpt t _ => (1 <= length (js t))%nat
                   end) alts ->
  matchFirst alts s = Some n -> (1 <= n <= length s)%nat.
Proof.
  induction 1 as [|a rest Ha _ IH]; cbn [matchFirst]; [discriminate|].
  destruct (matchAlternative a s) as [k|] eqn:E; [|exact IH].
  intros [= <-]. apply matchAlternative_bounds in E.
  destruct a; lia.
Qed.

Lemma tokenRe_search_bounds (s : jsstring) (i index len : nat) :
  tokenRe_search s i = Some (index, len) ->
  (i <= index /\ 1 <= len /\ index + len <= i + length s)%nat.
Proof.
  revert i. induction s as [|c s IH]; intros i; cbn [tokenRe_search].
  - destruct (matchFirst tokenRe []) as [n|] eqn:E; [|discriminate].
    intros [= <- <-]. apply (matchFirst_bounds _ _ _ tokenRe_nonempty) in E.
    cbn in E. lia.
  - destruct (matchFirst tokenRe (c :: s)) as [n|] eqn:E.
    + intros [= <- <-]. apply (matchFirst_bounds _ _ _ tokenRe_nonempty) in E.
      lia.
    + intros Hs. apply IH in Hs. cbn [length]. lia.
Qed.

(** A match found from [lastIndex] on starts there or later, is not empty
    and ends within the pattern. *)
Lemma tokenRe_exec_bounds (pattern : jsstring) (lastIndex index len : nat) :
  tokenRe_exec pattern lastIndex = Some (index, len) ->
  (lastIndex <= index /\ 1 <= len /\ index + len <= length pattern)%nat.
Proof.
  unfold tokenRe_exec. intros Hs.
  destruct (Nat.le_gt_cases lastIndex (length pattern)) as [Hle|Hgt].
  - apply tokenRe_search_bounds in Hs. rewrite length_drop in Hs. lia.
  - rewrite drop_ge in Hs by lia. apply tokenRe_search_bounds in Hs.
    cbn in Hs. lia.
Qed.

(** The loop of [escapeLiteralForMoment] stops because [exec] finds no
    further match, never because the rounds of the model are used up:
    with a round per code unit left, and one more, the rounds suffice. *)
Lemma escapeLoop_terminates (fuel : nat) (pattern : jsstring)
    (lastIndex : nat) (parts : list jsstring) :
  (length pattern - lastIndex < fuel)%nat ->
  tokenRe_exec pattern (escapeLoop fuel pattern lastIndex parts).2 = None.
Proof.
  revert lastIndex parts. induction fuel as [|fuel IH];
    intros lastIndex parts Hfuel; [lia|].
  cbn [escapeLoop].
  destruct (tokenRe_exec pattern lastIndex) as [[index len]|] eqn:E.
  - apply IH. apply tokenRe_exec_bounds in E. lia.
  - cbn [snd]. exact E.
Qed.

Lemma escapeLiteralForMoment_terminates (pattern : jsstring) :
  tokenRe_exec pattern
    (escapeLoop (S (length pattern)) pattern 0 []).2 = None.
Proof. apply escapeLoop_terminates. lia. Qed.

End Scanner.

(** * Key templates *)

Section Templates.
Context `{Host}.

Lemma escapeBrackets_plain (text : jsstring) :
  rbracket ∉ text -> escapeBrackets text = text.
Proof.
  induction text as [|c text IH]; cbn; [reflexivity|].
  rewrite not_elem_of_cons. intros [Hc Htext].
  destruct (N.eqb_spec c rbracket) as [->|_]; [congruence|].
  now rewrite IH.
Qed.

(** A pattern without tokens leaves the loop at once and comes out as
    one wrapped run. *)
Lemma escapeLiteralForMoment_literalOnly (pattern : jsstring) :
  literalOnly pattern ->
  escapeLiteralForMoment pattern = wrapLiteral pattern.
Proof.
  unfold literalOnly, escapeLiteralForMoment. intros Hnone.
  cbn [escapeLoop]. rewrite Hnone.
  destruct pattern as [|c pattern]; [reflexivity|].
  replace (0 <? length (c :: pattern))%nat with true by reflexivity.
  unfold slice. rewrite drop_0, Nat.sub_0_r, firstn_all. cbn [app concat].
  apply app_nil_r.
Qed.

(** Literal text without square brackets does come back unchanged. *)
Lemma format_literalOnly_plain (m : Moment) (pattern : jsstring) :
  bracketsPrintVerbatim ->
  literalOnly pattern -> pattern <> [] ->
  lbracket ∉ pattern -> rbracket ∉ pattern ->
  format m (escapeLiteralForMoment pattern) = pattern.
Proof.
  intros Hfmt Hlit Hne Hl Hr.
  rewrite escapeLiteralForMoment_literalOnly by assumption.
  destruct pattern as [|c pattern]; [congruence|].
  unfold wrapLiteral. rewrite escapeBrackets_plain by assumption.
  now apply Hfmt.
Qed.

(** C6, at the pattern that is one closing bracket.  The pattern has no
    token and is wrapped with its bracket escaped by a backslash; the
    formatter prints what stands between the outer brackets, backslash
    included, so two code units come back where one went in. *)
Theorem escapeLiteralForMoment_closing_bracket (m : Moment) :
  bracketsPrintVerbatim ->
  literalOnly [rbracket]
  /\ escapeLiteralForMoment [rbracket]
     = [lbracket; backslash; rbracket; rbracket]
  /\ format m (escapeLiteralForMoment [rbracket]) = [backslash; rbracket]
  /\ format m (escapeLiteralForMoment [rbracket]) <> [rbracket].
Proof.
  intros Hfmt.
  assert (Hout : format m (escapeLiteralForMoment [rbracket])
                 = [backslash; rbracket]).
  { change (escapeLiteralForMoment [rbracket])
      with (lbracket :: [backslash; rbracket] ++ [rbracket]).
    apply Hfmt. rewrite !not_elem_of_cons, elem_of_nil.
    repeat split; try discriminate. tauto. }
  split; [reflexivity|]. split; [reflexivity|]. split; [exact Hout|].
  rewrite Hout. discriminate.
Qed.

End Templates.

Section TestHostFormatter.

Lemma TestHost_hasCloser (text : jsstring) :
  lbracket ∉ text -> TestHost.hasCloser (text ++ [rbracket]) = true.
Proof.
  induction text as [|c text IH]; [reflexivity|].
  rewrite not_elem_of_cons. intros [Hc Htext]. cbn.
  destruct (c =? rbracket)%N; [reflexivity|].
  destruct (N.eqb_spec c lbracket) as [->|_]; [congruence|]. auto.
Qed.

Lemma TestHost_render_inside (m : Moment) (text : jsstring) :
  lbracket ∉ text ->
  TestHost.render true m (text ++ [rbracket]) = text.
Proof.
  induction text as [|c text IH]; [reflexivity|].
  intros Hno. pose proof Hno as [Hc Htext]%not_elem_of_cons.
  cbn. rewrite (TestHost_hasCloser text Htext), andb_false_r.
  now rewrite IH.
Qed.

Lemma TestHost_brackets : bracketsPrintVerbatim (H := TestHost.host).
Proof.
  intros m text Hno. cbn [format TestHost.host].
  cbn [TestHost.render]. rewrite N.eqb_refl.
  rewrite (TestHost_hasCloser text Hno). cbn [andb].
  now apply TestHost_render_inside.
Qed.

End TestHostFormatter.

Lemma escapeLiteralForMoment_closing_bracket_witness :
  format (Host := TestHost.host) (mkMoment 2025 6 15)
    (escapeLiteralForMoment (js "]")) = js "\]".
Proof.
  pose proof (@escapeLiteralForMoment_closing_bracket TestHost.host
                (mkMoment 2025 6 15) TestHost_brackets) as (_ & _ & E & _).
  exact E.
Defined.

(** * Plain objects *)

Section PlainObjects.
Context {V : Type}.
Implicit Types (o : gmap (list N) V) (k : list N) (v : V).

Lemma set_lookup_ne o k k' v :
  k <> k' -> JsObject.set k v o !! k' = o !! k'.
Proof.
  intros Hne. unfold JsObject.set.
  destruct (_ && _); [reflexivity|]. now apply lookup_insert_ne.
Qed.

Lemma set_lookup_eq o k v :
  k <> JsObject.proto -> JsObject.set k v o !! k = Some v.
Proof.
  intros Hne. unfold JsObject.set.
  rewrite bool_decide_eq_false_2 by assumption. apply lookup_insert_eq.
Qed.

(** An assignment never creates an own property [__proto__]. *)
Lemma set_proto_absent o k v :
  o !! JsObject.proto = None -> JsObject.set k v o !! JsObject.proto = None.
Proof.
  intros Hnone. unfold JsObject.set.
  destruct (decide (k = JsObject.proto)) as [->|Hne].
  - rewrite !bool_decide_eq_true_2 by (reflexivity || assumption). assumption.
  - rewrite bool_decide_eq_false_2 by assumption. cbn.
    now rewrite lookup_insert_ne.
Qed.

Lemma set_proto_empty v : JsObject.set JsObject.proto v (∅ : gmap (list N) V) = ∅.
Proof.
  unfold JsObject.set.
  now rewrite !bool_decide_eq_true_2 by (reflexivity || apply lookup_empty).
Qed.

End PlainObjects.

(** * The range of years *)

Section Range.
Context `{Host}.
Variables (lunar : LunarDate) (strategy : StrategyValue).
Variables (keyPattern dateFormat : jsstring).

Local Abbreviation loop n y result :=
  (rangeLoop n y lunar strategy keyPattern dateFormat result).
Local Abbreviation step y result :=
  (rangeStep lunar strategy keyPattern dateFormat y result).

(** An entry under a key other than [__proto__] after the loop over the
    years [y .. y + n - 1]: written by the last of these years that
    formats to the key, or there before and written by none. *)
Lemma rangeLoop_lookup (n : nat) (y : Z) (result : gmap (list N) (list N))
    (k v : jsstring) :
  k <> JsObject.proto ->
  loop n y result !! k = Some v <->
  (exists y' s, y <= y' < y + Z.of_nat n
     /\ toSolar y' lunar strategy = Some s
     /\ format s keyPattern = k /\ format s dateFormat = v
     /\ forall y'' s'', y' < y'' < y + Z.of_nat n ->
          toSolar y'' lunar strategy = Some s'' ->
          format s'' keyPattern <> k)
  \/ (result !! k = Some v
      /\ forall y'' s'', y <= y'' < y + Z.of_nat n ->
           toSolar y'' lunar strategy = Some s'' ->
           format s'' keyPattern <> k).
Proof.
  intros Hk. revert y result. induction n as [|n IH]; intros y result.
  - cbn [rangeLoop]. split.
    + intros Hres. right. split; [assumption|]. intros; lia.
    + intros [(y' & s & Hy' & _)|[Hres _]]; [lia|assumption].
  - cbn [rangeLoop]. rewrite IH. rewrite Nat2Z.inj_succ. split.
    + intros [(y' & s & Hy' & Hto & Hkey & Hval & Hlater)|[Hstep Hnone]].
      * left. exists y', s. split; [lia|]. repeat (split; [assumption|]).
        intros y'' s'' Hy''. apply Hlater. lia.
      * unfold rangeStep in Hstep.
        destruct (toSolar y lunar strategy) as [s|] eqn:Hto.
        -- destruct (decide (format s keyPattern = k)) as [Hkey|Hkey].
           ++ rewrite Hkey, set_lookup_eq in Hstep by assumption.
              injection Hstep as Hval.
              left. exists y, s. split; [lia|]. repeat (split; [assumption|]).
              intros y'' s'' Hy''. apply Hnone. lia.
           ++ rewrite set_lookup_ne in Hstep by assumption.
              right. split; [assumption|]. intros y'' s'' Hy'' Hto''.
              destruct (Z.eq_dec y'' y) as [->|Hne].
              ** rewrite Hto in Hto''. now injection Hto'' as <-.
              ** apply (Hnone y'' s''); [lia|assumption].
        -- right. split; [assumption|]. intros y'' s'' Hy'' Hto''.
           destruct (Z.eq_dec y'' y) as [->|Hne]; [congruence|].
           apply (Hnone y'' s''); [lia|assumption].
    + intros [(y' & s & Hy' & Hto & Hkey & Hval & Hlater)|[Hres Hnone]].
      * destruct (Z.eq_dec y' y) as [->|Hne].
        -- right. split.
           ++ unfold rangeStep. rewrite Hto, Hkey, Hval.
              now apply set_lookup_eq.
           ++ intros y'' s'' Hy''. apply Hlater. lia.
        -- left. exists y', s. split; [lia|]. repeat (split; [assumption|]).
           intros y'' s'' Hy''. apply Hlater. lia.
      * right. split.
        -- unfold rangeStep.
           destruct (toSolar y lunar strategy) as [s|] eqn:Hto; [|assumption].
           rewrite set_lookup_ne; [assumption|].
           apply (Hnone y s); [lia|assumption].
        -- intros y'' s'' Hy''. apply Hnone. lia.
Qed.

(** The loop never removes an entry. *)
Lemma rangeLoop_keeps (n : nat) (y : Z) (result : gmap (list N) (list N))
    (k : jsstring) :
  is_Some (result !! k) -> is_Some (loop n y result !! k).
Proof.
  revert y result. induction n as [|n IH]; intros y result Hk; [assumption|].
  cbn [rangeLoop]. apply IH. unfold rangeStep.
  destruct (toSolar y lunar strategy) as [s|]; [|assumption].
  unfold JsObject.set. destruct (_ && _); [assumption|].
  rewrite lookup_insert. case_decide; [eauto|assumption].
Qed.

(** A year of the window that has a day leaves an entry under its key,
    unless the key is [__proto__]. *)
Lemma rangeLoop_stores (n : nat) (y0 : Z) (result : gmap (list N) (list N))
    (y : Z) (s : Moment) :
  y0 <= y < y0 + Z.of_nat n ->
  toSolar y lunar strategy = Some s ->
  format s keyPattern <> JsObject.proto ->
  is_Some (loop n y0 result !! format s keyPattern).
Proof.
  revert y0 result. induction n as [|n IH]; intros y0 result Hy Hto Hkey; [lia|].
  cbn [rangeLoop]. destruct (Z.eq_dec y y0) as [->|Hne].
  - apply rangeLoop_keeps. unfold rangeStep. rewrite Hto.
    rewrite set_lookup_eq by assumption. eauto.
  - apply IH; [lia|assumption|assumption].
Qed.

Lemma rangeLoop_proto_absent (n : nat) (y : Z)
    (result : gmap (list N) (list N)) :
  result !! JsObject.proto = None ->
  loop n y result !! JsObject.proto = None.
Proof.
  revert y result. induction n as [|n IH]; intros y result Hnone; [assumption|].
  cbn [rangeLoop]. apply IH. unfold rangeStep.
  destruct (toSolar y lunar strategy); [|assumption].
  now apply set_proto_absent.
Qed.

(** When every day formats to the key [__proto__], nothing is stored. *)
Lemma rangeLoop_proto_key (n : nat) (y : Z) :
  (forall s, format s keyPattern = JsObject.proto) ->
  loop n y ∅ = ∅.
Proof.
  intros Hkey. revert y. induction n as [|n IH]; intros y; [reflexivity|].
  cbn [rangeLoop]. unfold rangeStep.
  destruct (toSolar y lunar strategy) as [s|]; [|apply IH].
  rewrite Hkey, set_proto_empty. apply IH.
Qed.

End Range.

Section RangeOutputs.
Context `{Host}.
Variables (lunar : LunarDate) (strategy : StrategyValue).
Variables (settings : LunarSolarSettings) (centerYear : Z).

Local Abbreviation keyPattern :=
  (escapeLiteralForMoment (outputKeyPattern settings)).
Local Abbreviation first := (centerYear - rangePast settings).
Local Abbreviation last := (centerYear + rangeFuture settings).

(** The entries of the result.  Every year from [first] to [last] is
    tried, in ascending order; a year without a day leaves no trace; an
    entry under a key other than [__proto__] is the one of the last year
    that formats to this key. *)
Lemma buildRangeOutputs_entry (k v : jsstring) :
  k <> JsObject.proto ->
  buildRangeOutputs lunar strategy settings centerYear !! k = Some v <->
  exists y s, first <= y <= last
    /\ toSolar y lunar strategy = Some s
    /\ format s keyPattern = k
    /\ format s (outputDateFormat settings) = v
    /\ forall y' s', y < y' <= last ->
         toSolar y' lunar strategy = Some s' ->
         format s' keyPattern <> k.
Proof.
  intros Hk. unfold buildRangeOutputs. cbv zeta.
  fold first last keyPattern.
  rewrite rangeLoop_lookup by assumption. split.
  - intros [(y & s & Hy & Hto & Hkey & Hval & Hlater)|[Hempty _]].
    + exists y, s. split; [lia|]. repeat (split; [assumption|]).
      intros y' s' Hy'. apply Hlater. lia.
    + rewrite lookup_empty in Hempty. discriminate.
  - intros (y & s & Hy & Hto & Hkey & Hval & Hlater).
    left. exists y, s. split; [lia|]. repeat (split; [assumption|]).
    intros y' s' Hy'. apply Hlater. lia.
Qed.

Lemma buildRangeOutputs_proto_absent :
  buildRangeOutputs lunar strategy settings centerYear !! JsObject.proto = None.
Proof.
  unfold buildRangeOutputs. cbv zeta.
  apply rangeLoop_proto_absent, lookup_empty.
Qed.

(** The result is empty exactly when every year of the window either has
    no day or formats to the key [__proto__]. *)
Lemma buildRangeOutputs_empty :
  buildRangeOutputs lunar strategy settings centerYear = ∅ <->
  forall y s, first <= y <= last ->
    toSolar y lunar strategy = Some s ->
    format s keyPattern = JsObject.proto.
Proof.
  split.
  - intros Hempty y s Hy Hto.
    destruct (decide (format s keyPattern = JsObject.proto)) as [|Hne];
      [assumption|exfalso].
    assert (Hv : is_Some (buildRangeOutputs lunar strategy settings centerYear
                            !! format s keyPattern)).
    { unfold buildRangeOutputs. cbv zeta.
      apply (rangeLoop_stores _ _ _ _ _ _ _ y); [|assumption|assumption].
      lia. }
    destruct Hv as [v Hv].
    rewrite Hempty, lookup_empty in Hv. discriminate.
  - intros Hall. apply map_eq. intros k. rewrite lookup_empty.
    destruct (decide (k = JsObject.proto)) as [->|Hk].
    + apply buildRangeOutputs_proto_absent.
    + destruct (buildRangeOutputs lunar strategy settings centerYear !! k)
        as [v|] eqn:Hv; [exfalso|reflexivity].
      apply buildRangeOutputs_entry in Hv as (y & s & Hy & Hto & Hkey & _);
        [|assumption].
      rewrite (Hall y s Hy Hto) in Hkey. congruence.
Qed.

(** C2, at the key pattern [[__proto__]].  The pattern is one bracketed
    run, which the formatter prints as [__proto__] for every day; the
    assignment of a string under this key is swallowed by the setter
    that a plain object inherits, so the result stays empty whichever
    years have a day. *)
Theorem buildRangeOutputs_proto_key :
  bracketsPrintVerbatim ->
  outputKeyPattern settings = js "[__proto__]" ->
  buildRangeOutputs lunar strategy settings centerYear = ∅.
Proof.
  intros Hfmt Hpattern. unfold buildRangeOutputs. cbv zeta.
  apply rangeLoop_proto_key. intros s. rewrite Hpattern.
  change (escapeLiteralForMoment (js "[__proto__]"))
    with (lbracket :: JsObject.proto ++ [rbracket]).
  apply Hfmt. intros Hin%list_elem_of_In. cbn in Hin.
  repeat (destruct Hin as [Hin|Hin]; [discriminate|]). exact Hin.
Qed.

End RangeOutputs.

Lemma buildRangeOutputs_proto_key_witness :
  let settings :=
    mkSettings (js "lunar-birthday") range (js "birthday") (js "YYYY-MM-DD")
      (js "[__proto__]") 1 1 forward TestHost.overrideKey [] in
  toSolar (H := TestHost.host) 2025 (mkLunarDate 2023 2 10 false)
    (Strategy forward) = Some (mkMoment 2025 2 10)
  /\ buildRangeOutputs (H := TestHost.host) (mkLunarDate 2023 2 10 false)
       (Strategy forward) settings 2025 = ∅.
Proof.
  split; [vm_compute; reflexivity|].
  apply (@buildRangeOutputs_proto_key TestHost.host);
    [exact TestHost_brackets|reflexivity].
Defined.

(** * Writing back, and running twice *)

Section Writing.

Lemma differs_lookup (data data' : gmap (list N) JsValue) (k v : jsstring) :
  data' !! k = data !! k -> differs data' k v = differs data k v.
Proof. intros E. unfold differs, JsObject.get. now rewrite E. Qed.

Lemma differs_after_set (data : gmap (list N) JsValue) (k v : jsstring) :
  k <> JsObject.proto ->
  differs (JsObject.set k (VString v) data) k v = false.
Proof.
  intros Hk. unfold differs, JsObject.get.
  rewrite set_lookup_eq by assumption.
  now rewrite bool_decide_eq_true_2.
Qed.

(** One entry: afterwards it no longer differs, and no other key has
    been touched. *)
Lemma writeEntry_spec (data : gmap (list N) JsValue) (changed : bool)
    (k v : jsstring) :
  k <> JsObject.proto ->
  differs (writeEntry (data, changed) (k, v)).1 k v = false
  /\ forall k', k' <> k ->
       (writeEntry (data, changed) (k, v)).1 !! k' = data !! k'.
Proof.
  intros Hk. unfold writeEntry.
  destruct (differs data k v) eqn:Hd; cbn [fst].
  - split; [now apply differs_after_set|].
    intros k' Hne. now apply set_lookup_ne.
  - split; [assumption|reflexivity].
Qed.

(** All entries: afterwards none differs, and the keys outside the list
    are as before. *)
Lemma writeEntries_spec (l : list (list N * list N)) :
  forall (data : gmap (list N) JsValue) (changed : bool),
    NoDup l.*1 -> JsObject.proto ∉ l.*1 ->
    (forall k v, (k, v) ∈ l ->
       differs (foldl writeEntry (data, changed) l).1 k v = false)
    /\ (forall k, k ∉ l.*1 ->
          (foldl writeEntry (data, changed) l).1 !! k = data !! k).
Proof.
  induction l as [|[k v] l IH]; intros data changed Hnodup Hproto.
  - cbn. split; [intros k v Hin; now apply elem_of_nil in Hin|reflexivity].
  - cbn [fmap list_fmap fst] in Hnodup, Hproto.
    apply NoDup_cons in Hnodup as [Hfresh Hnodup].
    apply not_elem_of_cons in Hproto as [Hk Hproto].
    cbn [foldl].
    destruct (writeEntry_spec data changed k v) as [Hhead Hframe]; [congruence|].
    destruct (writeEntry (data, changed) (k, v)) as [data1 changed1].
    cbn [fst] in Hhead, Hframe.
    destruct (IH data1 changed1 Hnodup Hproto) as [Hall Hrest].
    split.
    + intros k' v' [[= -> ->]|Hin]%elem_of_cons.
      * rewrite (differs_lookup data1) by now apply Hrest. assumption.
      * now apply Hall.
    + intros k' [Hne Hk']%not_elem_of_cons.
      rewrite Hrest by assumption. now apply Hframe.
Qed.

(** When no entry differs, nothing is written and nothing is flagged. *)
Lemma writeEntries_settled (l : list (list N * list N))
    (data : gmap (list N) JsValue) (changed : bool) :
  (forall k v, (k, v) ∈ l -> differs data k v = false) ->
  foldl writeEntry (data, changed) l = (data, changed).
Proof.
  induction l as [|[k v] l IH]; intros Hall; [reflexivity|].
  cbn [foldl]. unfold writeEntry at 2.
  rewrite (Hall k v) by apply list_elem_of_here.
  apply IH. intros k' v' Hin. apply Hall. now apply list_elem_of_further.
Qed.

(** Writing the same updates again changes nothing. *)
Lemma writeFrontmatter_twice (doc doc1 : Document)
    (updates : gmap (list N) (list N)) (changed : bool) :
  updates !! JsObject.proto = None ->
  writeFrontmatter doc updates = (changed, doc1) ->
  writeFrontmatter doc1 updates = (false, doc1).
Proof.
  intros Hproto. unfold writeFrontmatter.
  destruct (foldl writeEntry (default ∅ (frontmatter doc), false)
              (map_to_list updates)) as [data' ch] eqn:Hfold.
  destruct ch; intros [= <- <-].
  - cbn [frontmatter default body].
    rewrite writeEntries_settled; [reflexivity|].
    intros k v Hin.
    destruct (writeEntries_spec (map_to_list updates)
                (default ∅ (frontmatter doc)) false) as [Hall _].
    + apply NoDup_fst_map_to_list.
    + intros ([k' v'] & Hk' & Hin')%list_elem_of_fmap.
      apply elem_of_map_to_list in Hin'. cbn [fst] in Hk'. subst k'.
      rewrite Hproto in Hin'. discriminate.
    + specialize (Hall k v Hin). now rewrite Hfold in Hall.
  - now rewrite Hfold.
Qed.

End Writing.

Section RunningTwice.
Context `{Host}.

(** C9, as the code has it.  Run the processing of a note a second time,
    with the same settings and the same day, on the note the first run
    left, the source field and the override field reading as before.
    The second run leaves the note as it is; it reports [unchanged] when
    the first run reported [updated] or [unchanged], and it repeats the
    first run's result when that was [skipped]. *)
Theorem processFile_second_run
    (settings : LunarSolarSettings) (doc doc1 : Document) (r1 : ProcessResult) :
  processFile settings doc = (r1, doc1) ->
  sourceUnchanged settings doc doc1 ->
  processFile settings doc1
  = (match status r1 with
     | updated | unchanged => mkResult unchanged None
     | skipped | failed => r1
     end, doc1).
Proof.
  unfold processFile, sourceUnchanged. intros Hrun Hsame.
  destruct (frontmatter doc) as [fm|] eqn:Hfm.
  2: { injection Hrun as <- <-. now rewrite Hfm. }
  destruct (frontmatter doc1) as [fm1|] eqn:Hfm1; [|contradiction].
  destruct Hsame as [-> ->].
  assert (Hskip : forall why,
    skip why doc = (r1, doc1) ->
    skip why doc1
    = (match status r1 with
       | updated | unchanged => mkResult unchanged None
       | skipped | failed => r1
       end, doc1)).
  { intros why [= <- <-]. reflexivity. }
  assert (Hfinish : forall updates,
    updates !! JsObject.proto = None ->
    (let '(changed, doc') := writeFrontmatter doc updates in
     (mkResult (if changed then updated else unchanged) None, doc'))
    = (r1, doc1) ->
    (let '(changed, doc') := writeFrontmatter doc1 updates in
     (mkResult (if changed then updated else unchanged) None, doc'))
    = (match status r1 with
       | updated | unchanged => mkResult unchanged None
       | skipped | failed => r1
       end, doc1)).
  { intros updates Hproto.
    destruct (writeFrontmatter doc updates) as [changed doc'] eqn:Hw.
    intros [= <- <-].
    rewrite (writeFrontmatter_twice doc doc' updates changed Hproto Hw).
    now destruct changed. }
  revert Hrun.
  destruct (JsObject.get fm (sourceKey settings)) as [[]| |]; auto.
  destruct (parseLunar s) as [lunar|]; auto.
  destruct (outputMode settings).
  - destruct (findNextSolar lunar _) as [solar|]; auto.
    apply Hfinish. apply set_proto_absent, lookup_empty.
  - destruct (size _ =? 0)%nat; auto.
    apply Hfinish. apply buildRangeOutputs_proto_absent.
Qed.

End RunningTwice.

(** C9, as the claim has it, fails: a note whose metadata has no source
    field is skipped by the first run and skipped again by the second. *)
Lemma processFile_skipped_twice :
  ~ (forall (H : Host) settings doc r1 doc1 r2 doc2,
       processFile settings doc = (r1, doc1) ->
       sourceUnchanged settings doc doc1 ->
       processFile settings doc1 = (r2, doc2) ->
       status r2 = unchanged).
Proof.
  intros Hclaim.
  pose (doc := mkDocument (Some {[ js "title" := VString (js "note") ]})
                (js "text")).
  assert (Hrun : processFile (H := TestHost.host) (TestHost.settings single) doc
                 = (mkResult skipped (Some (js "no-source-key")), doc))
    by (vm_compute; reflexivity).
  assert (Hsame : sourceUnchanged (TestHost.settings single) doc doc)
    by (split; reflexivity).
  specialize (Hclaim TestHost.host _ _ _ _ _ _ Hrun Hsame Hrun).
  discriminate.
Qed.

Lemma processFile_second_run_witness :
  let doc1 :=
    mkDocument
      (Some (<[ js "birthday" := VString (js "2026-02-10") ]>
               {[ js "lunar-birthday" := VString (js "2023-02-10") ]}))
      (js "text") in
  processFile (H := TestHost.host) (TestHost.settings single) doc1
  = (mkResult unchanged None, doc1).
Proof.
  cbv zeta.
  apply (@processFile_second_run TestHost.host (TestHost.settings single)
           (TestHost.note (js "2023-02-10")) _ (mkResult updated None)).
  - vm_compute. reflexivity.
  - split; vm_compute; reflexivity.
Defined.


(** * Further properties of the leap-month resolution *)

Section ResolutionFacts.
Context `{Host}.

(** The resolution gives nothing only for a leap date, and then only
    under [strict] in a year without that leap month, or for a strategy
    value that is no variant. *)
Theorem resolveLunarMonth_none_iff
    (target : Z) (lunar : LunarDate) (strategy : StrategyValue) :
  resolveLunarMonth target lunar strategy = None <->
  isLeap lunar = true
  /\ ((strategy = Strategy strict
       /\ yearHasLeapMonth target (month lunar) = false)
      \/ exists name, strategy = ProtoMember name).
Proof.
  unfold resolveLunarMonth.
  destruct (isLeap lunar); cbn [negb]; [|split; [discriminate|intros [[=] _]]].
  destruct strategy as [[| |]|name];
    destruct (yearHasLeapMonth target (month lunar)); cbn [negb];
    split; try discriminate; try (intros _; split; [reflexivity|]; eauto);
    intros [_ [[Hs Hl]|[name' Hs]]]; try discriminate; reflexivity.
Qed.

(** What the resolution hands to the conversion.  The leap flag is set
    only for a leap date, with its own month, in a year for which the
    calendar reports exactly this leap month; and a month within 1..12
    resolves to a month within 1..12. *)
Theorem resolveLunarMonth_sound
    (target : Z) (lunar : LunarDate) (strategy : StrategyValue)
    (resolved : ResolvedMonth) :
  resolveLunarMonth target lunar strategy = Some resolved ->
  (rIsLeap resolved = true ->
     isLeap lunar = true /\ rMonth resolved = month lunar
     /\ getLeapMonth target = Some (month lunar))
  /\ (rIsLeap resolved = false ->
        rMonth resolved = month lunar
        \/ (strategy = Strategy backward /\ isLeap lunar = true
            /\ rMonth resolved = month lunar + 1))
  /\ (1 <= month lunar <= 12 -> 1 <= rMonth resolved <= 12).
Proof.
  unfold resolveLunarMonth.
  destruct (isLeap lunar); cbn [negb].
  2: { intros [= <-]. cbn. repeat split; try discriminate; auto; lia. }
  destruct strategy as [[| |]|name]; [| | |discriminate];
    destruct (yearHasLeapMonth target (month lunar)) eqn:Hhas; cbn [negb];
    try discriminate; intros [= <-]; cbn;
    try apply yearHasLeapMonth_true in Hhas;
    repeat split; try discriminate; auto; try lia.
  - destruct (Z.eqb_spec (month lunar) 12) as [->|Hne]; auto.
  - destruct (month lunar =? 12); lia.
  - destruct (Z.eqb_spec (month lunar) 12); lia.
Qed.

(** A calendar lookup that throws counts as a year without leap month:
    a leap date is then skipped under [strict], read as the ordinary
    month under [forward] and as the following month under [backward]. *)
Theorem toSolar_lookup_failure (target : Z) (lunar : LunarDate) :
  getLeapMonth target = None ->
  isLeap lunar = true ->
  toSolar target lunar (Strategy strict) = None
  /\ toSolar target lunar (Strategy forward)
     = lunarToSolar target (month lunar) (day lunar)
  /\ toSolar target lunar (Strategy backward)
     = lunarToSolar target
         (if month lunar =? 12 then 12 else month lunar + 1) (day lunar).
Proof.
  intros Hthrow Hleap. unfold toSolar, resolveLunarMonth, yearHasLeapMonth.
  rewrite Hthrow, Hleap. cbn. auto.
Qed.

Lemma toSolar_year (target y y' m d : Z) (l : bool) (strategy : StrategyValue) :
  toSolar target (mkLunarDate y m d l) strategy
  = toSolar target (mkLunarDate y' m d l) strategy.
Proof. reflexivity. Qed.

Lemma findNextSolar_from_year
    (n : nat) (i y y' m d : Z) (l : bool) (strategy : StrategyValue) :
  findNextSolar_from n i (mkLunarDate y m d l) strategy
  = findNextSolar_from n i (mkLunarDate y' m d l) strategy.
Proof.
  revert i. induction n as [|n IH]; intros i; [reflexivity|].
  cbn [findNextSolar_from]. rewrite (toSolar_year _ y y'), !IH. reflexivity.
Qed.

Lemma rangeLoop_year
    (n : nat) (first y y' m d : Z) (l : bool) (strategy : StrategyValue)
    (keyPattern dateFormat : jsstring) (result : gmap (list N) (list N)) :
  rangeLoop n first (mkLunarDate y m d l) strategy keyPattern dateFormat result
  = rangeLoop n first (mkLunarDate y' m d l) strategy keyPattern dateFormat
      result.
Proof.
  revert first result. induction n as [|n IH]; intros first result;
    [reflexivity|].
  cbn [rangeLoop]. unfold rangeStep.
  rewrite (toSolar_year _ y y'). apply IH.
Qed.

(** The year written in the source field plays no part: two dates that
    differ in the year only have the same next occurrence and the same
    range of outputs. *)
Theorem lunar_year_ignored
    (y y' m d : Z) (l : bool) (strategy : StrategyValue)
    (settings : LunarSolarSettings) (centerYear : Z) :
  findNextSolar (mkLunarDate y m d l) strategy
  = findNextSolar (mkLunarDate y' m d l) strategy
  /\ buildRangeOutputs (mkLunarDate y m d l) strategy settings centerYear
     = buildRangeOutputs (mkLunarDate y' m d l) strategy settings centerYear.
Proof.
  split.
  - apply findNextSolar_from_year.
  - apply rangeLoop_year.
Qed.

End ResolutionFacts.

Lemma resolveLunarMonth_sound_witness :
  getLeapMonth (Host := TestHost.host) 2023 = Some 2.
Proof.
  destruct (@resolveLunarMonth_sound TestHost.host 2023
              (mkLunarDate 1990 2 10 true) (Strategy strict)
              (mkResolved 2 true) eq_refl) as [Hleap _].
  now destruct (Hleap eq_refl) as (_ & _ & Hyear).
Defined.

Lemma toSolar_lookup_failure_witness :
  toSolar (H := TestHost.host) 1800 (mkLunarDate 1990 2 10 true)
    (Strategy strict) = None
  /\ toSolar (H := TestHost.host) 1800 (mkLunarDate 1990 2 10 true)
       (Strategy forward) = Some (mkMoment 1800 2 10)
  /\ toSolar (H := TestHost.host) 1800 (mkLunarDate 1990 2 10 true)
       (Strategy backward) = Some (mkMoment 1800 3 10).
Proof.
  apply (@toSolar_lookup_failure TestHost.host 1800
           (mkLunarDate 1990 2 10 true)); reflexivity.
Defined.

(** * Further properties of the source notation *)

Section NotationFacts.

Lemma stripPrefix_app (lit rest : jsstring) :
  stripPrefix lit (lit ++ rest) = Some rest.
Proof.
  induction lit as [|a lit IH]; cbn; [reflexivity|].
  now rewrite N.eqb_refl.
Qed.

Lemma stripPrefix_Some (lit s rest : jsstring) :
  stripPrefix lit s = Some rest -> s = lit ++ rest.
Proof.
  revert s. induction lit as [|a lit IH]; intros s; cbn.
  - now intros [= <-].
  - destruct s as [|b s]; [discriminate|].
    destruct (N.eqb_spec a b) as [->|_]; [|discriminate].
    intros E. now rewrite (IH s E).
Qed.

Lemma literal_Some (c : N) (s rest : jsstring) :
  literal c s = Some rest <-> s = c :: rest.
Proof.
  destruct s as [|c' s]; cbn; [split; discriminate|].
  destruct (N.eqb_spec c c') as [->|Hne]; split; congruence.
Qed.

Lemma digits_app (ds rest : jsstring) :
  forallb isDigit ds = true ->
  digits (length ds) (ds ++ rest) = Some (ds, rest).
Proof.
  induction ds as [|c ds IH]; cbn; [reflexivity|].
  intros [Hc Hds]%andb_prop. now rewrite Hc, IH.
Qed.

(** What [trimStart] removes is white space. *)
Lemma trimStart_split (s : jsstring) :
  exists ws, s = ws ++ trimStart s /\ forallb isWhiteSpace ws = true.
Proof.
  induction s as [|c s (ws & Hs & Hws)]; [now exists []|].
  cbn. destruct (isWhiteSpace c) eqn:Hc; [|now exists []].
  exists (c :: ws). cbn. rewrite Hc, Hws. now rewrite <- Hs.
Qed.

(** A digit is neither white space nor one of the two literal tokens. *)
Lemma isDigit_plain (c : N) :
  isDigit c = true ->
  isWhiteSpace c = false /\ c <> 20892%N /\ c <> leap_marker.
Proof.
  unfold isDigit, leap_marker. intros [H1 H2]%andb_prop.
  apply N.leb_le in H1, H2. repeat split; try lia.
  destruct (isWhiteSpace c) eqn:E; [|reflexivity].
  unfold isWhiteSpace in E.
  rewrite !orb_true_iff, !andb_true_iff, !N.eqb_eq, !N.leb_le in E. lia.
Qed.

Lemma isWhiteSpace_not_tag (c : N) : isWhiteSpace c = true -> c <> 20892%N.
Proof. intros Hc ->. discriminate. Qed.

(** A text that starts with something else than the first code unit of
    the tag does not start with the tag. *)
Lemma stripPrefix_tag_other (c : N) (s : jsstring) :
  c <> 20892%N -> stripPrefix tag_lunar (c :: s) = None.
Proof.
  intros Hne. unfold tag_lunar. cbn [stripPrefix].
  destruct (N.eqb_spec 20892 c); [congruence|reflexivity].
Qed.

(** The texts [parseLunar] accepts, and what it makes of them: an
    optional tag, white space, four digits, a hyphen, an optional leap
    marker, two digits, a hyphen, two digits and white space up to the
    end; the date holds the numbers the digits spell, and is a leap date
    exactly when the marker is there. *)
Theorem parseLunar_accepts_iff (raw : jsstring) (lunar : LunarDate) :
  parseLunar raw = Some lunar <->
  exists (tagged marked : bool) (ws1 y m d ws2 : jsstring),
    raw = (if tagged then tag_lunar else []) ++ ws1 ++ y
          ++ hyphen :: (if marked then [leap_marker] else []) ++ m
          ++ hyphen :: d ++ ws2
    /\ forallb isWhiteSpace ws1 = true /\ forallb isWhiteSpace ws2 = true
    /\ (length y = 4%nat /\ forallb isDigit y = true)
    /\ (length m = 2%nat /\ forallb isDigit m = true)
    /\ (length d = 2%nat /\ forallb isDigit d = true)
    /\ lunar = mkLunarDate (Number y) (Number m) (Number d) marked.
Proof.
  unfold parseLunar, LUNAR_INPUT_RE. cbv zeta. split.
  - destruct (trimStart_split (default raw (stripPrefix tag_lunar raw)))
      as (ws1 & Hs0 & Hws1).
    destruct (digits 4 _) as [[y s2]|] eqn:Ey; cbn -[digits literal];
      [|discriminate].
    destruct (literal hyphen s2) as [s3|] eqn:E3; cbn -[digits literal];
      [|discriminate].
    destruct (digits 2 (default s3 (literal leap_marker s3)))
      as [[m s5]|] eqn:Em; cbn -[digits literal]; [|discriminate].
    destruct (literal hyphen s5) as [s6|] eqn:E6; cbn -[digits literal];
      [|discriminate].
    destruct (digits 2 s6) as [[d s7]|] eqn:Ed; cbn -[digits literal];
      [|discriminate].
    destruct (forallb isWhiteSpace s7) eqn:Hws2; [|discriminate].
    intros [= <-]. cbn [yearStr monthStr dayStr leap].
    apply digits_spec in Ey as (Ly & Dy & Hy), Em as (Lm & Dm & Hm),
        Ed as (Ld & Dd & Hd).
    apply literal_Some in E3, E6.
    exists (bool_decide (is_Some (stripPrefix tag_lunar raw))),
      (bool_decide (is_Some (literal leap_marker s3))), ws1, y, m, d, s7.
    split; [|repeat split; auto].
    rewrite Hy, E3 in Hs0.
    assert (Hs3 : s3 = (if bool_decide (is_Some (literal leap_marker s3))
                        then [leap_marker] else []) ++ m ++ hyphen :: d ++ s7).
    { destruct (literal leap_marker s3) as [s4|] eqn:E4; cbn in Hm |- *.
      - apply literal_Some in E4. now rewrite E4, Hm, E6, Hd.
      - now rewrite Hm, E6, Hd. }
    rewrite Hs3 in Hs0 at 1.
    destruct (stripPrefix tag_lunar raw) as [r|] eqn:Etag; cbn in Hs0 |- *.
    + apply stripPrefix_Some in Etag. now rewrite Etag, Hs0.
    + exact Hs0.
  - intros (tagged & marked & ws1 & y & m & d & ws2 & -> & Hws1 & Hws2
            & (Ly & Dy) & (Lm & Dm) & (Ld & Dd) & ->).
    destruct y as [|y0 y]; [discriminate|].
    destruct m as [|m0 m]; [discriminate|].
    pose proof Dy as [Hy0 _]%andb_prop. pose proof Dm as [Hm0 _]%andb_prop.
    destruct (isDigit_plain y0 Hy0) as (Hy_ws & Hy_tag & _).
    destruct (isDigit_plain m0 Hm0) as (_ & _ & Hm_mark).
    set (tail := hyphen :: (if marked then [leap_marker] else [])
                 ++ (m0 :: m) ++ hyphen :: d ++ ws2).
    assert (Hstart :
      trimStart (default ((if tagged then tag_lunar else [])
                            ++ ws1 ++ (y0 :: y) ++ tail)
                   (stripPrefix tag_lunar
                      ((if tagged then tag_lunar else [])
                         ++ ws1 ++ (y0 :: y) ++ tail)))
      = (y0 :: y) ++ tail).
    { assert (Hskip : trimStart (ws1 ++ (y0 :: y) ++ tail) = (y0 :: y) ++ tail).
      { rewrite trimStart_whitespace_app by assumption. cbn. now rewrite Hy_ws. }
      destruct tagged.
      - now rewrite stripPrefix_app.
      - cbn [app].
        destruct ws1 as [|w ws1].
        + cbn [app]. rewrite stripPrefix_tag_other by assumption. exact Hskip.
        + cbn in Hws1. apply andb_prop in Hws1 as [Hw _].
          cbn [app]. rewrite stripPrefix_tag_other
            by now apply isWhiteSpace_not_tag.
          exact Hskip. }
    rewrite Hstart. rewrite <- Ly, digits_app by assumption.
    cbn [mbind option_bind]. unfold tail.
    replace (literal hyphen (hyphen :: _)) with
      (Some ((if marked then [leap_marker] else [])
             ++ (m0 :: m) ++ hyphen :: d ++ ws2))
      by reflexivity.
    cbn [mbind option_bind].
    assert (Hmark :
      literal leap_marker ((if marked then [leap_marker] else [])
                           ++ (m0 :: m) ++ hyphen :: d ++ ws2)
      = if marked then Some ((m0 :: m) ++ hyphen :: d ++ ws2) else None).
    { destruct marked; [reflexivity|]. cbn [app]. unfold literal.
      destruct (N.eqb_spec leap_marker m0); [congruence|reflexivity]. }
    rewrite Hmark.
    replace (default _ (if marked then _ else None))
      with ((m0 :: m) ++ hyphen :: d ++ ws2) by now destruct marked.
    rewrite <- Lm at 1. rewrite digits_app by assumption.
    cbn [mbind option_bind].
    replace (literal hyphen (hyphen :: d ++ ws2)) with (Some (d ++ ws2))
      by reflexivity.
    cbn [mbind option_bind]. rewrite <- Ld, digits_app by assumption.
    cbn [mbind option_bind]. rewrite Hws2.
    cbn [yearStr monthStr dayStr leap]. now destruct marked.
Qed.

(** White space in front of the tag is not accepted (white space between
    the tag and the year is). *)
Theorem parseLunar_space_before_tag (ws rest : jsstring) :
  ws <> [] -> forallb isWhiteSpace ws = true ->
  parseLunar (ws ++ tag_lunar ++ rest) = None.
Proof.
  intros Hne Hws. unfold parseLunar, LUNAR_INPUT_RE. cbv zeta.
  destruct ws as [|w ws]; [congruence|].
  pose proof Hws as [Hw _]%andb_prop.
  cbn [app]. rewrite stripPrefix_tag_other by now apply isWhiteSpace_not_tag.
  cbn [default].
  change (w :: ws ++ tag_lunar ++ rest) with ((w :: ws) ++ tag_lunar ++ rest).
  rewrite trimStart_whitespace_app by assumption. reflexivity.
Qed.

End NotationFacts.

Lemma parseLunar_space_before_tag_witness :
  parseLunar (js " " ++ tag_lunar ++ js "2023-02-10") = None.
Proof.
  apply (parseLunar_space_before_tag (js " ") (js "2023-02-10"));
    [discriminate|reflexivity].
Defined.

(** * Further properties of the override and of the key templates *)

Section OverrideFacts.

Lemma LEAP_STRATEGY_ENTRIES_NoDup : NoDup LEAP_STRATEGY_ENTRIES.*1.
Proof.
  apply (bool_decide_unpack (NoDup LEAP_STRATEGY_ENTRIES.*1)).
  vm_compute. exact I.
Qed.

(** The lookup, case by case.  A value that is not a string gives the
    fallback.  A string is trimmed; it gives the variant of the table when
    the table has it as an own property, the member of [Object.prototype]
    when it names one, and the fallback otherwise. *)
Theorem parseLeapStrategy_cases (value : JsValue) (fallback : LeapStrategy) :
  match value with
  | VString s =>
      (exists v, ((trim s, v) ∈ LEAP_STRATEGY_ENTRIES)
                 /\ parseLeapStrategy value fallback = Strategy v)
      \/ ((trim s ∈ JsObject.prototype_keys)
          /\ (trim s ∉ LEAP_STRATEGY_ENTRIES.*1)
          /\ parseLeapStrategy value fallback = ProtoMember (trim s))
      \/ ((trim s ∉ JsObject.prototype_keys)
          /\ (trim s ∉ LEAP_STRATEGY_ENTRIES.*1)
          /\ parseLeapStrategy value fallback = Strategy fallback)
  | _ => parseLeapStrategy value fallback = Strategy fallback
  end.
Proof.
  destruct value; try reflexivity.
  unfold parseLeapStrategy, JsObject.get, LEAP_STRATEGY_LOOKUP. cbv zeta.
  destruct (list_to_map LEAP_STRATEGY_ENTRIES !! trim s) as [v|] eqn:E.
  - left. exists v. split; [|reflexivity].
    now apply (elem_of_list_to_map _ _ _ LEAP_STRATEGY_ENTRIES_NoDup).
  - right. apply not_elem_of_list_to_map in E.
    case_bool_decide; [left|right]; auto.
Qed.

End OverrideFacts.

Section TemplateFacts.
Context `{Host}.

(** More rounds than the pattern has code units change nothing. *)
Lemma escapeLoop_more_fuel (fuel k : nat) (pattern : jsstring)
    (lastIndex : nat) (parts : list jsstring) :
  (length pattern - lastIndex < fuel)%nat ->
  escapeLoop (fuel + k) pattern lastIndex parts
  = escapeLoop fuel pattern lastIndex parts.
Proof.
  revert lastIndex parts. induction fuel as [|fuel IH];
    intros lastIndex parts Hfuel; [lia|].
  cbn [escapeLoop Nat.add].
  destruct (tokenRe_exec pattern lastIndex) as [[index len]|] eqn:E;
    [|reflexivity].
  apply IH. apply tokenRe_exec_bounds in E. lia.
Qed.

(** The scan of a pattern ends: every match takes at least one code unit
    and ends within the pattern, so after at most one round per code unit
    [exec] finds nothing more; the rounds the model allows are never used
    up, and allowing more gives the same parts. *)
Theorem escapeLiteralForMoment_scan_ends (pattern : jsstring) (k : nat) :
  tokenRe_exec pattern
    (escapeLoop (S (length pattern)) pattern 0 []).2 = None
  /\ escapeLoop (S (length pattern) + k) pattern 0 []
     = escapeLoop (S (length pattern)) pattern 0 []
  /\ forall lastIndex index len,
       tokenRe_exec pattern lastIndex = Some (index, len) ->
       (lastIndex <= index /\ 1 <= len /\ index + len <= length pattern)%nat.
Proof.
  split; [apply escapeLoop_terminates; lia|].
  split; [apply escapeLoop_more_fuel; lia|].
  intros lastIndex index len. apply tokenRe_exec_bounds.
Qed.

Lemma lazyToBracket_run (text rest : jsstring) :
  rbracket ∉ text ->
  Forall (fun c => isLineTerminator c = false) text ->
  lazyToBracket (text ++ rbracket :: rest) = Some (S (length text)).
Proof.
  intros Hr Hlt. induction text as [|c text IH]; cbn.
  - reflexivity.
  - apply not_elem_of_cons in Hr as [Hc Hr].
    apply Forall_cons in Hlt as [Hc' Hlt].
    destruct (N.eqb_spec c rbracket) as [->|_]; [congruence|].
    rewrite Hc', IH by assumption. reflexivity.
Qed.

(** A pattern that is already one bracketed run, without a closing
    bracket or a line terminator inside, is kept as it is; and the
    formatter then prints the text between the brackets. *)
Theorem escapeLiteralForMoment_bracketed (text : jsstring) :
  rbracket ∉ text ->
  Forall (fun c => isLineTerminator c = false) text ->
  escapeLiteralForMoment (lbracket :: text ++ [rbracket])
  = lbracket :: text ++ [rbracket]
  /\ (bracketsPrintVerbatim -> lbracket ∉ text ->
      forall m, format m (escapeLiteralForMoment (lbracket :: text ++ [rbracket]))
                = text).
Proof.
  intros Hr Hlt.
  assert (Hescape : escapeLiteralForMoment (lbracket :: text ++ [rbracket])
                    = lbracket :: text ++ [rbracket]).
  { set (p := lbracket :: text ++ [rbracket]).
    assert (Hlen : length p = S (S (length text)))
      by (unfold p; cbn; rewrite length_app; cbn; lia).
    assert (Hfirst : tokenRe_exec p 0 = Some (0, length p)%nat).
    { unfold tokenRe_exec. rewrite drop_0. unfold p at 1.
      cbn [tokenRe_search]. unfold tokenRe at 1.
      cbn [matchFirst matchAlternative]. rewrite N.eqb_refl.
      rewrite (lazyToBracket_run text [] Hr Hlt).
      cbn [fmap option_fmap option_map]. now rewrite Hlen. }
    assert (Hsecond : tokenRe_exec p (length p) = None).
    { unfold tokenRe_exec. now rewrite drop_all. }
    assert (Hloop : forall fuel,
              escapeLoop (S (S fuel)) p 0 [] = ([p], length p)).
    { intros fuel. cbn [escapeLoop]. rewrite Hfirst.
      cbn [Nat.ltb Nat.leb Nat.add app]. rewrite Hsecond.
      unfold slice. now rewrite drop_0, Nat.sub_0_r, firstn_all. }
    unfold escapeLiteralForMoment.
    replace (S (length p)) with (S (S (S (length text)))) by lia.
    rewrite Hloop, Nat.ltb_irrefl. cbn [concat]. apply app_nil_r. }
  split; [exact Hescape|].
  intros Hfmt Hl m. rewrite Hescape. now apply Hfmt.
Qed.

End TemplateFacts.

Lemma format_literalOnly_plain_witness :
  format (Host := TestHost.host) (mkMoment 2025 6 15)
    (escapeLiteralForMoment (js "- (!) -")) = js "- (!) -".
Proof.
  apply (@format_literalOnly_plain TestHost.host (mkMoment 2025 6 15)
           (js "- (!) -") TestHost_brackets).
  - reflexivity.
  - discriminate.
  - intros Hin%list_elem_of_In. cbn in Hin.
    repeat (destruct Hin as [Hin|Hin]; [discriminate|]). exact Hin.
  - intros Hin%list_elem_of_In. cbn in Hin.
    repeat (destruct Hin as [Hin|Hin]; [discriminate|]). exact Hin.
Defined.

Lemma escapeLiteralForMoment_bracketed_witness :
  escapeLiteralForMoment (js "[birthday]") = js "[birthday]".
Proof.
  refine (proj1 (@escapeLiteralForMoment_bracketed TestHost.host
                   (js "birthday") _ _)).
  - intros Hin%list_elem_of_In. cbn in Hin.
    repeat (destruct Hin as [Hin|Hin]; [discriminate|]). exact Hin.
  - repeat constructor.
Defined.

(** * Further properties of the range of years *)

Section RangeFacts.
Context `{Host}.
Variables (lunar : LunarDate) (strategy : StrategyValue).
Variables (settings : LunarSolarSettings) (centerYear : Z).

Local Abbreviation keyPattern :=
  (escapeLiteralForMoment (outputKeyPattern settings)).
Local Abbreviation first := (centerYear - rangePast settings).
Local Abbreviation last := (centerYear + rangeFuture settings).

(** The entries of the result, all of them.  A key holds a value exactly
    when it is not [__proto__] and some year of the window, from
    [centerYear - rangePast] to [centerYear + rangeFuture], has a day that
    formats to this key and this value, and no later year of the window
    has a day that formats to the same key: years without a day leave
    nothing, and of two years with the same key the later one wins. *)
Theorem buildRangeOutputs_last_write_wins (k v : jsstring) :
  buildRangeOutputs lunar strategy settings centerYear !! k = Some v <->
  k <> JsObject.proto
  /\ exists y s, first <= y <= last
       /\ toSolar y lunar strategy = Some s
       /\ format s keyPattern = k
       /\ format s (outputDateFormat settings) = v
       /\ forall y' s', y < y' <= last ->
            toSolar y' lunar strategy = Some s' ->
            format s' keyPattern <> k.
Proof.
  split.
  - intros Hk. assert (Hne : k <> JsObject.proto).
    { intros ->. rewrite buildRangeOutputs_proto_absent in Hk. discriminate. }
    split; [assumption|]. now apply buildRangeOutputs_entry.
  - intros [Hne Hy]. now apply buildRangeOutputs_entry.
Qed.

Lemma set_size {V : Type} (k : list N) (v : V) (o : gmap (list N) V) :
  (size (JsObject.set k v o) <= S (size o))%nat.
Proof.
  unfold JsObject.set. destruct (_ && _); [lia|].
  rewrite map_size_insert. destruct (o !! k); cbn; lia.
Qed.

Lemma rangeLoop_size (n : nat) (y : Z) (keys dateFormat : jsstring)
    (result : gmap (list N) (list N)) :
  (size (rangeLoop n y lunar strategy keys dateFormat result)
   <= size result + n)%nat.
Proof.
  revert y result. induction n as [|n IH]; intros y result;
    cbn [rangeLoop]; [lia|].
  etransitivity; [apply IH|]. unfold rangeStep.
  destruct (toSolar y lunar strategy) as [s|]; [|lia].
  pose proof (set_size (format s keys) (format s dateFormat) result). lia.
Qed.

(** The result has at most one entry per year of the window, and none
    when the window is empty. *)
Theorem buildRangeOutputs_size :
  (size (buildRangeOutputs lunar strategy settings centerYear)
   <= Z.to_nat (rangePast settings + rangeFuture settings + 1))%nat
  /\ (rangePast settings + rangeFuture settings < 0 ->
      buildRangeOutputs lunar strategy settings centerYear = ∅).
Proof.
  unfold buildRangeOutputs. cbv zeta.
  replace (last - first + 1)
    with (rangePast settings + rangeFuture settings + 1) by lia.
  split.
  - etransitivity; [apply rangeLoop_size|]. rewrite map_size_empty. lia.
  - intros Hneg.
    replace (Z.to_nat (rangePast settings + rangeFuture settings + 1))
      with 0%nat by lia.
    reflexivity.
Qed.

End RangeFacts.

(** * Further properties of writing back *)

Section WritingFacts.

Lemma differs_false (data : gmap (list N) JsValue) (k v : jsstring) :
  differs data k v = false <-> data !! k = Some (VString v).
Proof.
  unfold differs, JsObject.get.
  destruct (data !! k) as [[]|]; try (split; [discriminate|congruence]).
  - rewrite negb_false_iff, bool_decide_eq_true. split; congruence.
  - case_bool_decide; split; discriminate.
Qed.

Lemma existsb_agree {A : Type} (f g : A -> bool) (l : list A) :
  (forall x, x ∈ l -> f x = g x) -> existsb f l = existsb g l.
Proof.
  induction l as [|a l IH]; intros Hfg; [reflexivity|]. cbn.
  rewrite (Hfg a) by apply list_elem_of_here.
  rewrite IH; [reflexivity|]. intros x Hx. apply Hfg.
  now apply list_elem_of_further.
Qed.

(** The flag after the loop: set before, or raised by an entry that
    differs from what the note holds. *)
Lemma writeEntries_flag (l : list (list N * list N)) :
  forall (data : gmap (list N) JsValue) (changed : bool),
    NoDup l.*1 ->
    (foldl writeEntry (data, changed) l).2
    = changed || existsb (fun e => differs data e.1 e.2) l.
Proof.
  induction l as [|[k v] l IH]; intros data changed Hnodup.
  - cbn. now rewrite orb_false_r.
  - cbn [fmap list_fmap fst] in Hnodup.
    apply NoDup_cons in Hnodup as [Hfresh Hnodup].
    cbn [foldl existsb fst snd].
    unfold writeEntry at 2. destruct (differs data k v).
    + rewrite IH by assumption. cbn. now rewrite orb_true_r.
    + rewrite IH by assumption. cbn. reflexivity.
Qed.

(** The metadata after writing: the updates, laid over what was there. *)
Lemma writeFrontmatter_merge (doc : Document)
    (updates : gmap (list N) (list N)) :
  updates !! JsObject.proto = None ->
  default ∅ (frontmatter (writeFrontmatter doc updates).2)
  = (VString <$> updates) ∪ default ∅ (frontmatter doc)
  /\ body (writeFrontmatter doc updates).2 = body doc.
Proof.
  intros Hproto.
  assert (Hnodup : NoDup (map_to_list updates).*1)
    by apply NoDup_fst_map_to_list.
  assert (Hnoproto : JsObject.proto ∉ (map_to_list updates).*1).
  { intros ([k' v'] & Hk' & Hin')%list_elem_of_fmap.
    apply elem_of_map_to_list in Hin'. cbn [fst] in Hk'. subst k'.
    rewrite Hproto in Hin'. discriminate. }
  pose proof (writeEntries_spec (map_to_list updates)
                (default ∅ (frontmatter doc)) false Hnodup Hnoproto)
    as [Hall Hrest].
  pose proof (writeEntries_flag (map_to_list updates)
                (default ∅ (frontmatter doc)) false Hnodup) as Hflag.
  unfold writeFrontmatter.
  destruct (foldl writeEntry (default ∅ (frontmatter doc), false)
              (map_to_list updates)) as [data' ch].
  cbn [fst snd] in Hall, Hrest, Hflag.
  assert (Hdata : forall data : gmap (list N) JsValue,
            (forall k v, updates !! k = Some v -> data !! k = Some (VString v)) ->
            (forall k, updates !! k = None ->
                       data !! k = default ∅ (frontmatter doc) !! k) ->
            data = (VString <$> updates) ∪ default ∅ (frontmatter doc)).
  { intros data Hin Hout. apply map_eq. intros k.
    rewrite lookup_union, lookup_fmap.
    destruct (updates !! k) as [v|] eqn:Hk; cbn.
    - rewrite (Hin k v Hk). now destruct (default ∅ (frontmatter doc) !! k).
    - rewrite (Hout k Hk). now destruct (default ∅ (frontmatter doc) !! k). }
  destruct ch; cbn [snd frontmatter body default]; (split; [|reflexivity]).
  - apply Hdata.
    + intros k v Hk. apply differs_false, Hall. now apply elem_of_map_to_list.
    + intros k Hk. apply Hrest.
      intros ([k' v'] & Hk' & Hin')%list_elem_of_fmap.
      apply elem_of_map_to_list in Hin'. cbn [fst] in Hk'. subst k'.
      rewrite Hk in Hin'. discriminate.
  - apply Hdata; [|reflexivity].
    intros k v Hk. apply differs_false.
    cbn [orb] in Hflag. symmetry in Hflag.
    destruct (differs (default ∅ (frontmatter doc)) k v) eqn:Hd; [|reflexivity].
    assert (Hex : existsb (fun e => differs (default ∅ (frontmatter doc)) e.1 e.2)
                    (map_to_list updates) = true).
    { apply existsb_exists. exists (k, v). split; [|exact Hd].
      apply list_elem_of_In. now apply elem_of_map_to_list. }
    congruence.
Qed.

(** Whether [writeFrontmatter] rewrites the note. *)
Lemma writeFrontmatter_flag (doc : Document)
    (updates : gmap (list N) (list N)) :
  (writeFrontmatter doc updates).1 = true <->
  exists k v, updates !! k = Some v
              /\ default ∅ (frontmatter doc) !! k <> Some (VString v).
Proof.
  pose proof (writeEntries_flag (map_to_list updates)
                (default ∅ (frontmatter doc)) false
                (NoDup_fst_map_to_list _)) as Hflag.
  unfold writeFrontmatter.
  destruct (foldl writeEntry (default ∅ (frontmatter doc), false)
              (map_to_list updates)) as [data' ch].
  cbn [fst snd orb] in Hflag.
  replace ((if ch then (true, mkDocument (Some data') (body doc))
            else (false, doc)).1) with ch by now destruct ch.
  rewrite Hflag, existsb_exists. split.
  - intros ([k v] & Hin & Hd). exists k, v.
    apply list_elem_of_In, elem_of_map_to_list in Hin. split; [assumption|].
    intros Hk. apply differs_false in Hk. cbn in Hd. congruence.
  - intros (k & v & Hk & Hne). exists (k, v). split.
    + now apply list_elem_of_In, elem_of_map_to_list.
    + cbn. destruct (differs _ k v) eqn:Hd; [reflexivity|].
      now apply differs_false in Hd.
Qed.

(** [writeFrontmatter], as a whole, for updates without the key
    [__proto__].  The note is rewritten exactly when some update is not
    already in the metadata as that very string; otherwise the note is
    left as it is.  After the call the metadata holds every update, all
    other fields are as before, and so is the text of the note. *)
Theorem writeFrontmatter_spec (doc : Document)
    (updates : gmap (list N) (list N)) :
  updates !! JsObject.proto = None ->
  ((writeFrontmatter doc updates).1 = true <->
   exists k v, updates !! k = Some v
               /\ default ∅ (frontmatter doc) !! k <> Some (VString v))
  /\ ((writeFrontmatter doc updates).1 = false ->
      (writeFrontmatter doc updates).2 = doc)
  /\ (forall k v, updates !! k = Some v ->
        default ∅ (frontmatter (writeFrontmatter doc updates).2) !! k
        = Some (VString v))
  /\ (forall k, updates !! k = None ->
        default ∅ (frontmatter (writeFrontmatter doc updates).2) !! k
        = default ∅ (frontmatter doc) !! k)
  /\ body (writeFrontmatter doc updates).2 = body doc.
Proof.
  intros Hproto.
  destruct (writeFrontmatter_merge doc updates Hproto) as [Hmerge Hbody].
  split; [apply writeFrontmatter_flag|].
  split.
  { unfold writeFrontmatter. destruct (foldl _ _ _) as [data' ch].
    destruct ch; [discriminate|reflexivity]. }
  split; [|split; [|exact Hbody]].
  - intros k v Hk. rewrite Hmerge, lookup_union, lookup_fmap, Hk. cbn.
    now destruct (default ∅ (frontmatter doc) !! k).
  - intros k Hk. rewrite Hmerge, lookup_union, lookup_fmap, Hk. cbn.
    now destruct (default ∅ (frontmatter doc) !! k).
Qed.

End WritingFacts.

Lemma writeFrontmatter_spec_witness :
  default ∅
    (frontmatter
       (writeFrontmatter (TestHost.note (js "2023-02-10"))
          {[ js "birthday" := js "2026-02-10" ]}).2)
    !! js "birthday"
  = Some (VString (js "2026-02-10")).
Proof.
  refine (proj1 (proj2 (proj2
            (writeFrontmatter_spec (TestHost.note (js "2023-02-10"))
               {[ js "birthday" := js "2026-02-10" ]} _)))
            (js "birthday") (js "2026-02-10") _).
  - vm_compute. reflexivity.
  - vm_compute. reflexivity.
Defined.

(** * Further properties of a run over one note *)

Section RunFacts.
Context `{Host}.

Local Abbreviation overrideOf settings fm :=
  (match JsObject.get fm (leapStrategyKey settings) with
   | JsObject.Own v => v
   | JsObject.Inherited name => VFunction name
   | JsObject.Missing => VUndefined
   end).

Local Abbreviation strategyOf settings fm :=
  (parseLeapStrategy (overrideOf settings fm) (defaultLeapStrategy settings)).

(** The two ways a run ends: skipped, with the note untouched, or through
    [writeFrontmatter] with the updates of the output mode. *)
Lemma processFile_cases (settings : LunarSolarSettings) (doc doc' : Document)
    (r : ProcessResult) :
  processFile settings doc = (r, doc') ->
  (status r = skipped /\ doc' = doc)
  \/ exists fm raw lunar updates,
       frontmatter doc = Some fm
       /\ JsObject.get fm (sourceKey settings) = JsObject.Own (VString raw)
       /\ parseLunar raw = Some lunar
       /\ updates !! JsObject.proto = None
       /\ r = mkResult (if (writeFrontmatter doc updates).1
                        then updated else unchanged) None
       /\ doc' = (writeFrontmatter doc updates).2
       /\ match outputMode settings with
          | single =>
              exists solar,
                findNextSolar lunar (strategyOf settings fm) = Some solar
                /\ updates = JsObject.set (outputKeySingle settings)
                               (format solar (outputDateFormat settings)) ∅
          | range =>
              updates = buildRangeOutputs lunar (strategyOf settings fm)
                          settings (mYear today)
              /\ updates <> ∅
          end.
Proof.
  unfold processFile.
  assert (Hskip : forall why, skip why doc = (r, doc') ->
                              status r = skipped /\ doc' = doc)
    by (intros why [= <- <-]; auto).
  destruct (frontmatter doc) as [fm|] eqn:Hfm; [|eauto].
  destruct (JsObject.get fm (sourceKey settings)) as [[]| |] eqn:Hsrc; eauto.
  destruct (parseLunar s) as [lunar|] eqn:Hparse; [|eauto].
  assert (Hfinish : forall updates,
    (let '(changed, doc1) := writeFrontmatter doc updates in
     (mkResult (if changed then updated else unchanged) None, doc1))
    = (r, doc') ->
    r = mkResult (if (writeFrontmatter doc updates).1
                  then updated else unchanged) None
    /\ doc' = (writeFrontmatter doc updates).2).
  { intros updates. destruct (writeFrontmatter doc updates) as [ch doc1].
    now intros [= <- <-]. }
  destruct (outputMode settings) eqn:Hmode.
  - destruct (findNextSolar lunar _) as [solar|] eqn:Hnext; [|eauto].
    intros [-> ->]%Hfinish. right.
    exists fm, s, lunar,
      (JsObject.set (outputKeySingle settings)
         (format solar (outputDateFormat settings)) ∅).
    do 3 (split; [assumption || reflexivity|]).
    split; [apply set_proto_absent, lookup_empty|].
    split; [reflexivity|]. split; [reflexivity|].
    exists solar. split; [assumption|reflexivity].
  - destruct (size _ =? 0)%nat eqn:Hsize; [eauto|].
    intros [-> ->]%Hfinish. right.
    exists fm, s, lunar,
      (buildRangeOutputs lunar (strategyOf settings fm) settings (mYear today)).
    do 3 (split; [assumption || reflexivity|]).
    split; [apply buildRangeOutputs_proto_absent|].
    split; [reflexivity|]. split; [reflexivity|].
    split; [reflexivity|]. intros Hempty. rewrite Hempty in Hsize.
    rewrite map_size_empty in Hsize. discriminate.
Qed.

Lemma writeFrontmatter_keeps_block (doc : Document)
    (updates : gmap (list N) (list N)) (fm : gmap (list N) JsValue) :
  frontmatter doc = Some fm ->
  frontmatter (writeFrontmatter doc updates).2
  = Some (default ∅ (frontmatter (writeFrontmatter doc updates).2)).
Proof.
  intros Hfm. unfold writeFrontmatter. destruct (foldl _ _ _) as [data' ch].
  destruct ch; cbn; [reflexivity|]. now rewrite Hfm.
Qed.

(** A run reports [updated] exactly when it has changed the note, and it
    never changes the text behind the metadata. *)
Theorem processFile_updated_iff_modified
    (settings : LunarSolarSettings) (doc doc' : Document) (r : ProcessResult) :
  processFile settings doc = (r, doc') ->
  (status r = updated <-> doc' <> doc)
  /\ body doc' = body doc.
Proof.
  intros [[Hs ->]|(fm & raw & lunar & updates & Hfm & _ & _ & Hproto
                   & -> & -> & _)]%processFile_cases.
  - rewrite Hs. split; [|reflexivity]. split; [discriminate|].
    intros Hne. now destruct Hne.
  - destruct (writeFrontmatter_merge doc updates Hproto) as [Hmerge Hbody].
    pose proof (writeFrontmatter_flag doc updates) as Hflag.
    split; [|exact Hbody].
    destruct (writeFrontmatter doc updates).1 eqn:Hch; cbn [status].
    + split; [intros _|reflexivity].
      destruct (proj1 Hflag eq_refl) as (k & v & Hk & Hold).
      intros Heq. apply Hold. rewrite Heq in Hmerge. rewrite Hmerge.
      rewrite lookup_union, lookup_fmap, Hk. cbn.
      now destruct (default ∅ (frontmatter doc) !! k).
    + split; [discriminate|]. intros Hne. destruct Hne.
      revert Hch. unfold writeFrontmatter.
      destruct (foldl _ _ _) as [data' ch].
      destruct ch; [discriminate|reflexivity].
Qed.

Lemma findNextSolar_on_or_after
    (lunar : LunarDate) (strategy : StrategyValue) (solar : Moment) :
  findNextSolar lunar strategy = Some solar ->
  isSameOrAfter solar today = true.
Proof.
  unfold findNextSolar.
  pose proof (findNextSolar_from_spec MAX_SEARCH_YEARS 0 lunar strategy)
    as Hspec.
  destruct (findNextSolar_from MAX_SEARCH_YEARS 0 lunar strategy) as [s|];
    [|discriminate].
  intros [= ->]. apply Hspec.
Qed.

(** A run in single mode that ends as [updated] or [unchanged].  The
    source field holds a text that [parseLunar] accepts, the next occurrence exists and is on
    or after today, the output field holds it, formatted, unless the
    output key is [__proto__], and every other field of the note is as
    before. *)
Theorem processFile_single_spec
    (settings : LunarSolarSettings) (doc doc' : Document) (r : ProcessResult) :
  outputMode settings = single ->
  processFile settings doc = (r, doc') ->
  status r = updated \/ status r = unchanged ->
  exists fm fm' raw lunar solar,
    frontmatter doc = Some fm /\ frontmatter doc' = Some fm'
    /\ JsObject.get fm (sourceKey settings) = JsObject.Own (VString raw)
    /\ parseLunar raw = Some lunar
    /\ findNextSolar lunar (strategyOf settings fm) = Some solar
    /\ isSameOrAfter solar today = true
    /\ (outputKeySingle settings <> JsObject.proto ->
        fm' !! outputKeySingle settings
        = Some (VString (format solar (outputDateFormat settings))))
    /\ forall k, k <> outputKeySingle settings -> fm' !! k = fm !! k.
Proof.
  intros Hmode [[Hs _]|(fm & raw & lunar & updates & Hfm & Hsrc & Hparse
                        & Hproto & -> & -> & Hupd)]%processFile_cases Hrun;
    [destruct Hrun; congruence|].
  rewrite Hmode in Hupd. destruct Hupd as (solar & Hnext & ->).
  destruct (writeFrontmatter_merge doc
              (JsObject.set (outputKeySingle settings)
                 (format solar (outputDateFormat settings)) ∅) Hproto)
    as [Hmerge _].
  rewrite Hfm in Hmerge. cbn [default] in Hmerge.
  exists fm, ((VString <$> JsObject.set (outputKeySingle settings)
                 (format solar (outputDateFormat settings)) ∅) ∪ fm),
    raw, lunar, solar.
  split; [assumption|].
  split; [rewrite (writeFrontmatter_keeps_block _ _ fm Hfm); now rewrite Hmerge|].
  repeat (split; [assumption|]).
  split; [|split].
  - now apply (findNextSolar_on_or_after lunar (strategyOf settings fm)).
  - intros Hkey. rewrite lookup_union, lookup_fmap.
    rewrite set_lookup_eq by assumption. cbn. now destruct (fm !! _).
  - intros k Hk. rewrite lookup_union, lookup_fmap.
    rewrite set_lookup_ne, lookup_empty by congruence. cbn.
    now destruct (fm !! k).
Qed.

(** A run in range mode that ends as [updated] or [unchanged].  The
    range of outputs is not empty, the note holds every entry of it, and every field that is not
    a key of the range is as before. *)
Theorem processFile_range_spec
    (settings : LunarSolarSettings) (doc doc' : Document) (r : ProcessResult) :
  outputMode settings = range ->
  processFile settings doc = (r, doc') ->
  status r = updated \/ status r = unchanged ->
  exists fm fm' raw lunar,
    frontmatter doc = Some fm /\ frontmatter doc' = Some fm'
    /\ JsObject.get fm (sourceKey settings) = JsObject.Own (VString raw)
    /\ parseLunar raw = Some lunar
    /\ buildRangeOutputs lunar (strategyOf settings fm) settings (mYear today)
       <> ∅
    /\ (forall k v,
          buildRangeOutputs lunar (strategyOf settings fm) settings
            (mYear today) !! k = Some v ->
          fm' !! k = Some (VString v))
    /\ (forall k,
          buildRangeOutputs lunar (strategyOf settings fm) settings
            (mYear today) !! k = None ->
          fm' !! k = fm !! k).
Proof.
  intros Hmode [[Hs _]|(fm & raw & lunar & updates & Hfm & Hsrc & Hparse
                        & Hproto & -> & -> & Hupd)]%processFile_cases Hrun;
    [destruct Hrun; congruence|].
  rewrite Hmode in Hupd. destruct Hupd as (-> & Hne).
  destruct (writeFrontmatter_merge doc _ Hproto) as [Hmerge _].
  rewrite Hfm in Hmerge. cbn [default] in Hmerge.
  exists fm, ((VString <$> buildRangeOutputs lunar (strategyOf settings fm)
                 settings (mYear today)) ∪ fm), raw, lunar.
  split; [assumption|].
  split; [rewrite (writeFrontmatter_keeps_block _ _ fm Hfm); now rewrite Hmerge|].
  repeat (split; [assumption|]).
  split.
  - intros k v Hk. rewrite lookup_union, lookup_fmap, Hk. cbn.
    now destruct (fm !! k).
  - intros k Hk. rewrite lookup_union, lookup_fmap, Hk. cbn.
    now destruct (fm !! k).
Qed.

End RunFacts.

Lemma processFile_updated_iff_modified_witness :
  (updated = updated <->
   mkDocument
     (Some (<[ js "birthday" := VString (js "2026-02-10") ]>
              {[ js "lunar-birthday" := VString (js "2023-02-10") ]}))
     (js "text")
   <> TestHost.note (js "2023-02-10")).
Proof.
  refine (proj1 (@processFile_updated_iff_modified TestHost.host
                   (TestHost.settings single) (TestHost.note (js "2023-02-10"))
                   _ (mkResult updated None) _)).
  vm_compute. reflexivity.
Defined.

Lemma processFile_single_spec_witness :
  exists (fm' : gmap (list N) JsValue) (solar : Moment),
    isSameOrAfter solar (today (Host := TestHost.host)) = true
    /\ fm' !! outputKeySingle (TestHost.settings single)
       = Some (VString (format (Host := TestHost.host) solar
                          (outputDateFormat (TestHost.settings single)))).
Proof.
  assert (Hrun :
    processFile (H := TestHost.host) (TestHost.settings single)
      (TestHost.note (js "2023-02-10"))
    = (mkResult updated None,
       mkDocument
         (Some (<[ js "birthday" := VString (js "2026-02-10") ]>
                  {[ js "lunar-birthday" := VString (js "2023-02-10") ]}))
         (js "text")))
    by (vm_compute; reflexivity).
  destruct (@processFile_single_spec TestHost.host (TestHost.settings single)
              _ _ _ eq_refl Hrun (or_introl eq_refl))
    as (fm & fm' & raw & lunar & solar & _ & _ & _ & _ & _ & Hafter
        & Hout & _).
  exists fm', solar. split; [exact Hafter|].
  apply Hout. intros E. vm_compute in E. discriminate E.
Defined.

Lemma processFile_range_spec_witness :
  exists (fm fm' : gmap (list N) JsValue),
    frontmatter (TestHost.note (js "2023-02-10")) = Some fm
    /\ fm' !! js "lunar-birthday" = fm !! js "lunar-birthday".
Proof.
  assert (Hrun :
    processFile (H := TestHost.host) (TestHost.settings range)
      (TestHost.note (js "2023-02-10"))
    = (mkResult updated None,
       mkDocument
         (Some (<[ js "birthday-2024" := VString (js "2024-02-10") ]>
                (<[ js "birthday-2025" := VString (js "2025-02-10") ]>
                 (<[ js "birthday-2026" := VString (js "2026-02-10") ]>
                    {[ js "lunar-birthday" := VString (js "2023-02-10") ]}))))
         (js "text")))
    by (vm_compute; reflexivity).
  destruct (@processFile_range_spec TestHost.host (TestHost.settings range)
              _ _ _ eq_refl Hrun (or_introl eq_refl))
    as (fm & fm' & raw & lunar & Hfm & _ & Hsrc & Hparse & _ & _ & Hout).
  exists fm, fm'. split; [exact Hfm|].
  apply Hout.
  injection Hfm as <-.
  assert (Hraw : raw = js "2023-02-10")
    by (vm_compute in Hsrc; now injection Hsrc as <-).
  subst raw. vm_compute in Hparse. injection Hparse as <-.
  vm_compute. reflexivity.
Defined.

(** * Properties of a run over the vault *)

Section TargetFacts.

Lemma startsWith_true (s prefix : jsstring) :
  startsWith s prefix = true <-> exists rest, s = prefix ++ rest.
Proof.
  unfold startsWith. split.
  - destruct (stripPrefix prefix s) as [rest|] eqn:E; [|discriminate].
    intros _. exists rest. now apply stripPrefix_Some.
  - intros [rest ->]. now rewrite stripPrefix_app.
Qed.

(** What a target selects: the path that equals it, and the paths that
    continue its folder prefix. *)
Lemma matchesTarget_true (path target : jsstring) :
  matchesTarget path target = true <->
  path = target
  \/ exists rest,
       path = (if endsWith target [slash] then target else target ++ [slash])
              ++ rest.
Proof.
  unfold matchesTarget. case_bool_decide as Heq.
  - split; auto.
  - cbv zeta. rewrite startsWith_true. split; [auto|]. now intros [|].
Qed.

(** A target that does not end in a slash, against the paths that start
    with it: it selects the path itself and the paths that go on with a
    slash, and no other; a folder whose name merely begins like the target
    is not selected. *)
Theorem matchesTarget_folder (target suffix : jsstring) :
  endsWith target [slash] = false ->
  matchesTarget (target ++ suffix) target = true <->
  suffix = [] \/ exists rest, suffix = slash :: rest.
Proof.
  intros Hend. rewrite matchesTarget_true, Hend. split.
  - intros [Heq|[rest Heq]].
    + left. apply (app_inv_head target). now rewrite app_nil_r.
    + right. exists rest. apply (app_inv_head target).
      now rewrite Heq, <- app_assoc.
  - intros [->|[rest ->]].
    + left. apply app_nil_r.
    + right. exists rest. now rewrite <- app_assoc.
Qed.

Lemma filter_sublist {A : Type} (f : A -> bool) (l : list A) :
  sublist (List.filter f l) l.
Proof.
  induction l as [|a l IH]; cbn; [constructor|].
  destruct (f a); now constructor.
Qed.

(** The notes a run over all notes visits.  The targets are trimmed and
    normalized, and the empty ones dropped.  Without a target left, every
    note of the vault is visited.  Otherwise the notes visited are those
    of the vault, in the order of the vault, whose path equals a target or
    continues the folder prefix of one. *)
Theorem getMarkdownFiles_spec (normalizePath : jsstring -> jsstring)
    (settings : LunarSolarSettings) (markdownFiles : list jsstring) :
  let cleaned := cleanTargets normalizePath (targets settings) in
  (forall t, t ∈ cleaned <->
     t <> [] /\ exists raw, raw ∈ targets settings
                            /\ t = normalizePath (trim raw))
  /\ (cleaned = [] ->
      getMarkdownFiles normalizePath settings markdownFiles = markdownFiles)
  /\ (cleaned <> [] ->
      forall path,
        path ∈ getMarkdownFiles normalizePath settings markdownFiles <->
        path ∈ markdownFiles
        /\ exists t, t ∈ cleaned
             /\ (path = t
                 \/ exists rest,
                      path = (if endsWith t [slash] then t else t ++ [slash])
                             ++ rest))
  /\ sublist (getMarkdownFiles normalizePath settings markdownFiles)
       markdownFiles.
Proof.
  cbv zeta. split; [|split; [|split]].
  - intros t. unfold cleanTargets.
    rewrite list_elem_of_In, filter_In, in_map_iff, negb_true_iff,
      bool_decide_eq_false.
    split.
    + intros [(raw & <- & Hraw) Hne]. split; [assumption|].
      exists raw. now rewrite list_elem_of_In.
    + intros [Hne (raw & Hraw & ->)]. split; [|assumption].
      exists raw. now rewrite <- list_elem_of_In.
  - unfold getMarkdownFiles. now intros ->.
  - unfold getMarkdownFiles.
    destruct (cleanTargets normalizePath (targets settings)) as [|t0 ts] eqn:E;
      [congruence|]. intros _ path.
    rewrite list_elem_of_In, filter_In, existsb_exists, <- list_elem_of_In.
    split.
    + intros [Hin (t & Ht & Hm)]. split; [assumption|].
      exists t. rewrite list_elem_of_In. now rewrite <- matchesTarget_true.
    + intros [Hin (t & Ht & Hm)]. split; [assumption|].
      exists t. rewrite <- list_elem_of_In. now rewrite matchesTarget_true.
  - unfold getMarkdownFiles.
    destruct (cleanTargets normalizePath (targets settings));
      [reflexivity|apply filter_sublist].
Qed.

End TargetFacts.

Section BatchFacts.
Context `{Host}.

Lemma tally_fields (t : Tally) (r : ProcessResult) :
  nUpdated (tally t r)
  = (nUpdated t + match status r with updated => 1 | _ => 0 end)%nat
  /\ nUnchanged (tally t r)
     = (nUnchanged t + match status r with unchanged => 1 | _ => 0 end)%nat
  /\ nSkipped (tally t r)
     = (nSkipped t + match status r with skipped => 1 | _ => 0 end)%nat
  /\ nFailed (tally t r)
     = (nFailed t + match status r with failed => 1 | _ => 0 end)%nat.
Proof. unfold tally. destruct (status r); cbn; lia. Qed.

(** The counters after the loop, from any start. *)
Lemma tally_counts (results : list ProcessResult) (t : Tally) :
  nUpdated (foldl tally t results)
  = (nUpdated t
     + length (List.filter
                 (fun r => match status r with updated => true | _ => false end)
                 results))%nat
  /\ nUnchanged (foldl tally t results)
     = (nUnchanged t
        + length (List.filter
                    (fun r => match status r with
                              | unchanged => true | _ => false end)
                    results))%nat
  /\ nSkipped (foldl tally t results)
     = (nSkipped t
        + length (List.filter
                    (fun r => match status r with
                              | skipped => true | _ => false end)
                    results))%nat
  /\ nFailed (foldl tally t results)
     = (nFailed t
        + length (List.filter
                    (fun r => match status r with
                              | failed => true | _ => false end)
                    results))%nat
  /\ (nUpdated (foldl tally t results) + nUnchanged (foldl tally t results)
      + nSkipped (foldl tally t results) + nFailed (foldl tally t results)
      = nUpdated t + nUnchanged t + nSkipped t + nFailed t
        + length results)%nat.
Proof.
  revert t. induction results as [|r rs IH]; intros t.
  - cbn. lia.
  - pose proof (tally_fields t r) as Hf. specialize (IH (tally t r)).
    cbn [foldl List.filter].
    destruct (status r); cbn [length] in *; lia.
Qed.

(** Each counter of the notice is the number of results of its kind, so
    every result is counted once. *)
Theorem reportResult_counts (results : list ProcessResult) :
  nUpdated (reportResult results)
  = length (List.filter
              (fun r => match status r with updated => true | _ => false end)
              results)
  /\ nUnchanged (reportResult results)
     = length (List.filter
                 (fun r => match status r with
                           | unchanged => true | _ => false end)
                 results)
  /\ nSkipped (reportResult results)
     = length (List.filter
                 (fun r => match status r with
                           | skipped => true | _ => false end)
                 results)
  /\ nFailed (reportResult results)
     = length (List.filter
                 (fun r => match status r with
                           | failed => true | _ => false end)
                 results)
  /\ (nUpdated (reportResult results) + nUnchanged (reportResult results)
      + nSkipped (reportResult results) + nFailed (reportResult results)
      = length results)%nat.
Proof.
  unfold reportResult.
  pose proof (tally_counts results (mkTally 0 0 0 0)) as Hc.
  cbn [nUpdated nUnchanged nSkipped nFailed] in Hc. lia.
Qed.

Lemma processPath_frame (settings : LunarSolarSettings)
    (vault : gmap (list N) Document) (path q : jsstring) :
  q <> path -> (processPath settings vault path).2 !! q = vault !! q.
Proof.
  intros Hne. unfold processPath. destruct (vault !! path) as [doc|];
    [|reflexivity].
  destruct (processFile settings doc) as [r doc']. cbn [snd].
  now rewrite lookup_insert_ne.
Qed.

Lemma processPath_local (settings : LunarSolarSettings)
    (vault vault' : gmap (list N) Document) (path : jsstring) :
  vault' !! path = vault !! path ->
  (processPath settings vault' path).1 = (processPath settings vault path).1
  /\ (processPath settings vault' path).2 !! path
     = (processPath settings vault path).2 !! path.
Proof.
  intros E. unfold processPath. rewrite E.
  destruct (vault !! path) as [doc|] eqn:Hdoc.
  - destruct (processFile settings doc) as [r doc']. cbn [fst snd].
    split; [reflexivity|]. now rewrite !lookup_insert_eq.
  - cbn [fst snd]. split; [reflexivity|congruence].
Qed.

Lemma runFiles_length (settings : LunarSolarSettings) (files : list jsstring)
    (vault : gmap (list N) Document) :
  length (runFiles settings files vault).1 = length files.
Proof.
  revert vault. induction files as [|p files IH]; intros vault; [reflexivity|].
  cbn [runFiles]. destruct (processPath settings vault p) as [r vault1].
  specialize (IH vault1). destruct (runFiles settings files vault1).
  cbn in *. now rewrite IH.
Qed.

Lemma runFiles_frame (settings : LunarSolarSettings) (files : list jsstring)
    (vault : gmap (list N) Document) (q : jsstring) :
  q ∉ files -> (runFiles settings files vault).2 !! q = vault !! q.
Proof.
  revert vault. induction files as [|p files IH]; intros vault Hq;
    [reflexivity|].
  apply not_elem_of_cons in Hq as [Hne Hq]. cbn [runFiles].
  pose proof (processPath_frame settings vault p q Hne) as Hp.
  destruct (processPath settings vault p) as [r vault1].
  specialize (IH vault1 Hq). destruct (runFiles settings files vault1).
  cbn [snd] in *. congruence.
Qed.

(** The loop over distinct paths, note by note, against the vault it
    started from. *)
Lemma runFiles_each (settings : LunarSolarSettings) (files : list jsstring) :
  forall vault : gmap (list N) Document,
    NoDup files ->
    (runFiles settings files vault).1
    = List.map (fun p => (processPath settings vault p).1) files
    /\ forall p, p ∈ files ->
         (runFiles settings files vault).2 !! p
         = (processPath settings vault p).2 !! p.
Proof.
  induction files as [|p files IH]; intros vault Hnodup.
  - split; [reflexivity|]. intros p Hp. now apply elem_of_nil in Hp.
  - apply NoDup_cons in Hnodup as [Hfresh Hnodup]. cbn [runFiles List.map].
    pose proof (processPath_frame settings vault p) as Hframe.
    pose proof (runFiles_frame settings files
                  (processPath settings vault p).2 p Hfresh) as Hkeep.
    destruct (processPath settings vault p) as [r vault1] eqn:Hp.
    cbn [fst snd] in *.
    destruct (IH vault1 Hnodup) as [Hres Hvault].
    destruct (runFiles settings files vault1) as [rs vault2].
    cbn [fst snd] in *. split.
    + f_equal. rewrite Hres. apply map_ext_in. intros q Hq.
      apply processPath_local, Hframe. intros ->.
      now apply Hfresh, list_elem_of_In.
    + intros q [->|Hq]%elem_of_cons; [rewrite Hp; exact Hkeep|].
      rewrite (Hvault q Hq). apply processPath_local, Hframe.
      intros ->. now apply Hfresh.
Qed.

(** Notes do not influence one another.  In a run over distinct paths,
    the result at each position is the result of [processFile] on the
    note as it was before the run, that note is replaced by what
    [processFile] made of it, and notes that are not listed stay as they
    are. *)
Theorem runFiles_independent (settings : LunarSolarSettings)
    (files : list jsstring) (vault : gmap (list N) Document) :
  NoDup files ->
  length (runFiles settings files vault).1 = length files
  /\ (forall i p doc,
        files !! i = Some p -> vault !! p = Some doc ->
        (runFiles settings files vault).1 !! i
        = Some (processFile settings doc).1
        /\ (runFiles settings files vault).2 !! p
           = Some (processFile settings doc).2)
  /\ (forall q, q ∉ files ->
        (runFiles settings files vault).2 !! q = vault !! q).
Proof.
  intros Hnodup. destruct (runFiles_each settings files vault Hnodup)
    as [Hres Hvault].
  split; [apply runFiles_length|]. split; [|apply runFiles_frame].
  intros i p doc Hi Hdoc.
  assert (Hpath : (processPath settings vault p).1 = (processFile settings doc).1
                  /\ (processPath settings vault p).2 !! p
                     = Some (processFile settings doc).2).
  { unfold processPath. rewrite Hdoc.
    destruct (processFile settings doc) as [r doc']. cbn [fst snd].
    now rewrite lookup_insert_eq. }
  destruct Hpath as [Hr Hd]. split.
  - rewrite Hres. change (List.map ?f files) with (f <$> files).
    rewrite list_lookup_fmap, Hi. cbn. now rewrite Hr.
  - rewrite (Hvault p); [exact Hd|]. apply list_elem_of_lookup. eauto.
Qed.

(** A run over all notes counts every note it visits, once, and leaves
    the notes it does not visit as they are. *)
Theorem runOnAll_counts (normalizePath : jsstring -> jsstring)
    (settings : LunarSolarSettings) (markdownFiles : list jsstring)
    (vault : gmap (list N) Document) :
  let t := (runOnAll normalizePath settings markdownFiles vault).1 in
  let vault' := (runOnAll normalizePath settings markdownFiles vault).2 in
  (nUpdated t + nUnchanged t + nSkipped t + nFailed t
   = length (getMarkdownFiles normalizePath settings markdownFiles))%nat
  /\ forall q, q ∉ getMarkdownFiles normalizePath settings markdownFiles ->
       vault' !! q = vault !! q.
Proof.
  cbv zeta. unfold runOnAll. cbv zeta.
  set (files := getMarkdownFiles normalizePath settings markdownFiles).
  pose proof (runFiles_length settings files vault) as Hlen.
  pose proof (runFiles_frame settings files vault) as Hframe.
  destruct (runFiles settings files vault) as [results vault'].
  cbn [fst snd] in *. unfold reportResult.
  destruct (tally_counts results (mkTally 0 0 0 0)) as (_ & _ & _ & _ & Hsum).
  cbn [nUpdated nUnchanged nSkipped nFailed] in Hsum.
  split; [lia|exact Hframe].
Qed.

End BatchFacts.

Lemma matchesTarget_folder_witness :
  matchesTarget (js "notes" ++ js "2/a.md") (js "notes") = true <->
  js "2/a.md" = [] \/ exists rest, js "2/a.md" = slash :: rest.
Proof.
  apply (matchesTarget_folder (js "notes") (js "2/a.md")). reflexivity.
Defined.

Lemma runFiles_independent_witness :
  length
    (runFiles (H := TestHost.host) (TestHost.settings single)
       [js "a.md"; js "b.md"]
       (<[ js "a.md" := TestHost.note (js "2023-02-10") ]>
          {[ js "b.md" := mkDocument None (js "text") ]})).1
  = 2%nat.
Proof.
  refine (proj1 (@runFiles_independent TestHost.host
                   (TestHost.settings single) [js "a.md"; js "b.md"] _ _)).
  apply (bool_decide_unpack (NoDup [js "a.md"; js "b.md"])).
  vm_compute. exact I.
Defined.

(** * Properties of the settings and of the token table *)

Section SettingFacts.

Lemma trimStart_idem (s : jsstring) : trimStart (trimStart s) = trimStart s.
Proof.
  induction s as [|c s IH]; [reflexivity|]. cbn.
  destruct (isWhiteSpace c) eqn:Hc; [exact IH|]. cbn. now rewrite Hc.
Qed.

(** [trimEnd] cuts white space off the end. *)
Lemma trimEnd_split (s : jsstring) :
  exists ws, s = trimEnd s ++ ws /\ forallb isWhiteSpace ws = true.
Proof.
  destruct (trimStart_split (rev s)) as (ws & Hs & Hws).
  exists (rev ws). split; [|now rewrite forallb_rev].
  unfold trimEnd. rewrite <- rev_app_distr, <- Hs. now rewrite rev_involutive.
Qed.

Lemma trimEnd_keeps_start (s : jsstring) :
  trimStart s = s -> trimStart (trimEnd s) = trimEnd s.
Proof.
  intros Hs. destruct (trimEnd_split s) as (ws & Hsplit & _).
  destruct (trimEnd s) as [|c t]; [reflexivity|].
  rewrite Hsplit in Hs. cbn in Hs |- *.
  destruct (isWhiteSpace c); [|reflexivity].
  pose proof (trimStart_length (t ++ ws)) as Hlen.
  rewrite Hs in Hlen. cbn in Hlen. lia.
Qed.

Lemma trimEnd_idem (s : jsstring) : trimEnd (trimEnd s) = trimEnd s.
Proof. unfold trimEnd. now rewrite rev_involutive, trimStart_idem. Qed.

(** A trimmed text has no white space left at either end. *)
Lemma trim_trimmed (s : jsstring) :
  trimStart (trim s) = trim s /\ trimEnd (trim s) = trim s.
Proof.
  unfold trim. split; [|apply trimEnd_idem].
  apply trimEnd_keeps_start, trimStart_idem.
Qed.

Lemma trim_idem (s : jsstring) : trim (trim s) = trim s.
Proof.
  destruct (trim_trimmed s) as [Hstart Hend].
  unfold trim at 1. now rewrite Hstart.
Qed.

(** What a text field of the settings stores.  A value that is empty or
    white space only is replaced by the fallback; any other value is
    stored trimmed.  With a fallback that is not empty and has no white
    space at its ends, as every fallback of the settings tab, the stored
    text is never empty and is left as it is by trimming again. *)
Theorem textSetting_spec (value fallback : jsstring) :
  (forallb isWhiteSpace value = true -> textSetting value fallback = fallback)
  /\ (forallb isWhiteSpace value = false ->
      textSetting value fallback = trim value)
  /\ (fallback <> [] -> textSetting value fallback <> [])
  /\ (trim fallback = fallback ->
      trim (textSetting value fallback) = textSetting value fallback).
Proof.
  unfold textSetting. repeat split.
  - intros Hws. unfold trim.
    replace (trimStart value) with (@nil N); [reflexivity|].
    rewrite <- (app_nil_r value).
    now rewrite trimStart_whitespace_app by assumption.
  - intros Hws. destruct (trim value) as [|c t] eqn:E; [|reflexivity].
    exfalso. unfold trim in E.
    destruct (trimEnd_split (trimStart value)) as (ws & Hsplit & Hws').
    rewrite E in Hsplit. cbn in Hsplit.
    destruct (trimStart_split value) as (ws0 & Hvalue & Hws0).
    rewrite Hsplit in Hvalue. rewrite Hvalue, forallb_app, Hws0, Hws' in Hws.
    discriminate.
  - intros Hne. destruct (trim value); [assumption|discriminate].
  - intros Hfallback. destruct (trim value) as [|c t] eqn:E; [assumption|].
    rewrite <- E. apply trim_idem.
Qed.

Lemma matchFirst_app (l1 l2 : list Alternative) (s : jsstring) :
  matchFirst (l1 ++ l2) s
  = match matchFirst l1 s with
    | Some n => Some n
    | None => matchFirst l2 s
    end.
Proof.
  induction l1 as [|a l1 IH]; [reflexivity|]. cbn [app matchFirst].
  now destruct (matchAlternative a s).
Qed.

Lemma matchFirst_None (l : list Alternative) (s : jsstring) (a : Alternative) :
  matchFirst l s = None -> In a l -> matchAlternative a s = None.
Proof.
  induction l as [|b l IH]; [intros _ []|]. cbn [matchFirst].
  destruct (matchAlternative b s) eqn:E; [discriminate|].
  intros Hl [->|Hin]; auto.
Qed.

(** The alternative [Do] of [tokenRe] is never the one that matches: it
    stands behind [D], which matches wherever [Do] would.  The table
    without it finds the same matches, and the pattern [Do] comes out as
    the token [D] and the literal [o]. *)
Theorem tokenRe_Do_never_matches (s : jsstring) :
  matchFirst tokenRe s
  = matchFirst (List.filter
                  (fun a => match a with
                            | Lit t => negb (String.eqb t "Do")
                            | _ => true
                            end) tokenRe) s
  /\ escapeLiteralForMoment (js "Do") = js "D[o]".
Proof.
  split; [|vm_compute; reflexivity].
  set (pre := [ Bracketed; Lit "YYYY"; Lit "YY"; LitOpt "Q" "O";
                Lit "MMMM"; Lit "MMM"; Lit "MM"; Lit "M";
                Lit "DDDD"; Lit "DDD"; Lit "DD"; Lit "D" ]).
  set (post := [ Lit "dddd"; Lit "ddd"; Lit "dd"; Lit "d";
                 Lit "WWWW"; Lit "WWW"; Lit "WW"; Lit "W";
                 LitOpt "H" "H"; LitOpt "h" "h"; LitOpt "m" "m";
                 LitOpt "s" "s"; Lit "A"; Lit "a"; Lit "X"; Lit "x";
                 LitOpt "Z" "Z"; Lit "SSS"; Lit "SS"; Lit "S" ]).
  change (matchFirst (pre ++ [Lit "Do"] ++ post) s = matchFirst (pre ++ post) s).
  rewrite !matchFirst_app.
  destruct (matchFirst _ s) as [n|] eqn:Hpre; [reflexivity|].
  assert (HD : matchAlternative (Lit "D") s = None).
  { apply (matchFirst_None _ _ _ Hpre). cbn. tauto. }
  cbn [matchFirst app]. 
  replace (matchAlternative (Lit "Do") s) with (@None nat); [reflexivity|].
  symmetry. cbn [matchAlternative] in HD |- *.
  destruct s as [|c s]; [reflexivity|].
  change (js "D") with [68%N] in HD. change (js "Do") with [68%N; 111%N].
  cbn [stripPrefix] in HD |- *.
  destruct (68 =? c)%N; [discriminate|reflexivity].
Qed.

End SettingFacts.

(** * The reasons for skipping a note *)

Section SkipReasons.
Context `{H : Host}.

Lemma reasonsTell_skip (settings : LunarSolarSettings) (doc : Document)
    (why : string) :
  (js why = js "no-frontmatter" <-> frontmatter doc = None) ->
  (js why = js "no-source-key" <->
   exists fm, frontmatter doc = Some fm
     /\ forall raw, JsObject.get fm (sourceKey settings)
                    <> JsObject.Own (VString raw)) ->
  (js why = js "invalid-format" <->
   exists fm raw, frontmatter doc = Some fm
     /\ JsObject.get fm (sourceKey settings) = JsObject.Own (VString raw)
     /\ parseLunar raw = None) ->
  In why ["no-frontmatter"; "no-source-key"; "invalid-format";
          "no-solar"]%string ->
  reasonsTell settings doc (skip why doc).
Proof.
  intros HP HQ HR Hwhy. unfold reasonsTell, skip.
  cbn [fst snd reason status].
  split; [rewrite <- HP; split; [now intros [= E] | now intros ->]|].
  split; [rewrite <- HQ; split; [now intros [= E] | now intros ->]|].
  split; [rewrite <- HR; split; [now intros [= E] | now intros ->]|].
  split; [split; [discriminate | intros [E|E]; discriminate E]|].
  split; [split; [intros _; now exists why | reflexivity]|].
  reflexivity.
Qed.

Lemma reasonsTell_finish (settings : LunarSolarSettings) (doc : Document)
    (fm : gmap jsstring JsValue) (raw : jsstring) (lunar : LunarDate)
    (updates : gmap jsstring jsstring) :
  frontmatter doc = Some fm ->
  JsObject.get fm (sourceKey settings) = JsObject.Own (VString raw) ->
  parseLunar raw = Some lunar ->
  reasonsTell settings doc
    (let '(changed, doc') := writeFrontmatter doc updates in
     (mkResult (if changed then updated else unchanged) None, doc')).
Proof.
  intros Hfm Hsrc Hparse. unfold reasonsTell.
  destruct (writeFrontmatter doc updates) as [changed doc'].
  cbn [fst snd reason status].
  split; [split; [discriminate | congruence]|].
  split.
  { split; [discriminate|]. intros (fm' & Hfm' & Hno).
    rewrite Hfm in Hfm'. injection Hfm' as <-. now destruct (Hno raw). }
  split.
  { split; [discriminate|]. intros (fm' & raw' & Hfm' & Hraw & Hnone).
    rewrite Hfm in Hfm'. injection Hfm' as <-.
    rewrite Hsrc in Hraw. injection Hraw as <-. congruence. }
  split; [split; [destruct changed; auto | reflexivity]|].
  split.
  { split; [now destruct changed|]. intros (why & E & _). discriminate E. }
  now destruct changed.
Qed.

(** What the reason of a run tells about the note.  The reason is
    [no-frontmatter] exactly for a note without metadata block,
    [no-source-key] exactly when the block has no text under the source
    key as an own field, and [invalid-format] exactly when that text is
    not a lunar date.  A result has no reason exactly when it is
    [updated] or [unchanged], it is [skipped] exactly when its reason is
    one of the four of the early returns, and a skipped note is not
    written. *)
Theorem processFile_skip_reasons (settings : LunarSolarSettings)
    (doc : Document) :
  let r := (processFile settings doc).1 in
  (reason r = Some (js "no-frontmatter") <-> frontmatter doc = None)
  /\ (reason r = Some (js "no-source-key") <->
      exists fm, frontmatter doc = Some fm
        /\ forall raw, JsObject.get fm (sourceKey settings)
                       <> JsObject.Own (VString raw))
  /\ (reason r = Some (js "invalid-format") <->
      exists fm raw, frontmatter doc = Some fm
        /\ JsObject.get fm (sourceKey settings) = JsObject.Own (VString raw)
        /\ parseLunar raw = None)
  /\ (reason r = None <-> status r = updated \/ status r = unchanged)
  /\ (status r = skipped <->
      exists why, reason r = Some (js why)
        /\ In why ["no-frontmatter"; "no-source-key"; "invalid-format";
                   "no-solar"]%string)
  /\ (status r = skipped -> (processFile settings doc).2 = doc).
Proof.
  change (reasonsTell settings doc (processFile settings doc)).
  unfold processFile.
  destruct (frontmatter doc) as [fm|] eqn:Hfm.
  - destruct (JsObject.get fm (sourceKey settings)) as [v|name|] eqn:Hsrc.
    + destruct v as [| | | |raw| | |].
      5:{ destruct (parseLunar raw) as [lunar|] eqn:Hparse.
          - assert (Hsolar : reasonsTell settings doc (skip "no-solar" doc)).
            { apply reasonsTell_skip.
              - split; [intros E; vm_compute in E; discriminate E|].
                rewrite Hfm. discriminate.
              - split; [intros E; vm_compute in E; discriminate E|].
                intros (fm' & Hfm' & Hno). rewrite Hfm in Hfm'.
                injection Hfm' as <-. now destruct (Hno raw).
              - split; [intros E; vm_compute in E; discriminate E|].
                intros (fm' & raw' & Hfm' & Hraw & Hnone).
                rewrite Hfm in Hfm'. injection Hfm' as <-.
                rewrite Hsrc in Hraw. injection Hraw as <-. congruence.
              - cbn. tauto. }
            destruct (outputMode settings).
            + destruct (findNextSolar lunar _) as [solar|]; [|exact Hsolar].
              now apply (reasonsTell_finish settings doc fm raw lunar).
            + destruct (size _ =? 0)%nat; [exact Hsolar|].
              now apply (reasonsTell_finish settings doc fm raw lunar).
          - apply reasonsTell_skip.
            + split; [intros E; vm_compute in E; discriminate E|].
              rewrite Hfm. discriminate.
            + split; [intros E; vm_compute in E; discriminate E|].
              intros (fm' & Hfm' & Hno). rewrite Hfm in Hfm'.
              injection Hfm' as <-. now destruct (Hno raw).
            + split; [|reflexivity]. intros _. exists fm, raw. auto.
            + cbn. tauto. }
      all: apply reasonsTell_skip;
        [ split; [intros E; vm_compute in E; discriminate E|];
          rewrite Hfm; discriminate
        | split; [|reflexivity]; intros _; exists fm;
          split; [assumption|]; rewrite Hsrc; discriminate
        | split; [intros E; vm_compute in E; discriminate E|];
          intros (fm' & raw' & Hfm' & Hraw & _); rewrite Hfm in Hfm';
          injection Hfm' as <-; rewrite Hsrc in Hraw; discriminate Hraw
        | cbn; tauto ].
    + apply reasonsTell_skip;
        [ split; [intros E; vm_compute in E; discriminate E|];
          rewrite Hfm; discriminate
        | split; [|reflexivity]; intros _; exists fm;
          split; [assumption|]; rewrite Hsrc; discriminate
        | split; [intros E; vm_compute in E; discriminate E|];
          intros (fm' & raw' & Hfm' & Hraw & _); rewrite Hfm in Hfm';
          injection Hfm' as <-; rewrite Hsrc in Hraw; discriminate Hraw
        | cbn; tauto ].
    + apply reasonsTell_skip;
        [ split; [intros E; vm_compute in E; discriminate E|];
          rewrite Hfm; discriminate
        | split; [|reflexivity]; intros _; exists fm;
          split; [assumption|]; rewrite Hsrc; discriminate
        | split; [intros E; vm_compute in E; discriminate E|];
          intros (fm' & raw' & Hfm' & Hraw & _); rewrite Hfm in Hfm';
          injection Hfm' as <-; rewrite Hsrc in Hraw; discriminate Hraw
        | cbn; tauto ].
  - apply reasonsTell_skip.
    + split; [intros _; assumption | reflexivity].
    + split; [intros E; vm_compute in E; discriminate E|].
      intros (fm & Hfm' & _). rewrite Hfm in Hfm'. discriminate.
    + split; [intros E; vm_compute in E; discriminate E|].
      intros (fm & raw & Hfm' & _). rewrite Hfm in Hfm'. discriminate.
    + cbn. tauto.
Qed.

End SkipReasons.
